(** * Coordinator: a file-system lock queue (coordinator.go)

    Shallow embedding of the Go package [coordination] and the properties
    of its operations [WaitForFile], [CreateWaitFile], [WaitInLine] and
    [CutInLine].  The library calls the package makes ([os.ReadDir],
    [os.Remove], [path.Join], [ioutil.TempFile], [fsnotify]) are modelled
    after their documented behaviour. *)

From Stdlib Require Import ZArith NArith Ascii String Lia.
From stdpp Require Import base list strings sorting gmap fin_maps.

Local Open Scope Z_scope.

(** ** Byte-wise order on strings

    Go compares strings byte by byte, and [os.ReadDir] sorts the entries
    with that comparison.  [String.compare] is the same order;
    [String.le] is its non-strict form. *)

Module StrOrd.

Definition lt (s1 s2 : string) : Prop := String.compare s1 s2 = Lt.

End StrOrd.

(** ** Slash-separated paths: [path.Clean], [path.Join], [filepath.Dir]

    The lexical path functions of Go's [path] package, on the elements
    between slashes: empty and [.] elements are dropped, an inner [..]
    removes the element before it, a [..] at the root is dropped, and a
    leading [..] of an unrooted path is kept. *)

Module GoPath.

Definition slash : ascii := "/"%char.

Fixpoint elements (s : string) : list string :=
  match s with
  | EmptyString => [EmptyString]
  | String c s' =>
      if Ascii.eqb c slash then EmptyString :: elements s'
      else match elements s' with
           | e :: es => String c e :: es
           | [] => [String c EmptyString]
           end
  end.

Definition rooted (s : string) : bool :=
  match s with
  | String c _ => Ascii.eqb c slash
  | EmptyString => false
  end.

(** [out] holds the elements written so far, the last one first. *)
Definition clean_step (root : bool) (out : list string) (e : string)
  : list string :=
  if String.eqb e "" then out
  else if String.eqb e "." then out
  else if String.eqb e ".." then
    match out with
    | top :: out' => if String.eqb top ".." then e :: out else out'
    | [] => if root then [] else [e]
    end
  else e :: out.

Definition render (root : bool) (out : list string) : string :=
  (if root then "/" else "") +:+ String.concat "/" (rev out).

Definition Clean (p : string) : string :=
  if String.eqb p "" then "."
  else
    let s := render (rooted p) (fold_left (clean_step (rooted p)) (elements p) []) in
    if String.eqb s "" then "." else s.

(** [path.Join]: empty elements are ignored, the rest is joined with
    slashes and cleaned; no element at all gives the empty string. *)
Definition Join (elem : list string) : string :=
  match List.filter (fun e => negb (String.eqb e "")) elem with
  | [] => ""
  | es => Clean (String.concat "/" es)
  end.

Fixpoint has_slash (s : string) : bool :=
  match s with
  | EmptyString => false
  | String c s' => Ascii.eqb c slash || has_slash s'
  end.

(** [filepath.Dir] on a slash-separated system: everything up to the
    last slash, cleaned. *)
Fixpoint upto_last_slash (s : string) : string :=
  match s with
  | EmptyString => EmptyString
  | String c s' => if has_slash s then String c (upto_last_slash s') else EmptyString
  end.

Definition Dir (p : string) : string := Clean (upto_last_slash p).

(** The name of a directory entry as a listing returns it: not empty,
    not [.] or [..], without a slash. *)
Definition entry_name (n : string) : bool :=
  negb (String.eqb n "") && negb (String.eqb n ".") &&
  negb (String.eqb n "..") && negb (has_slash n).

End GoPath.

(** ** Decimal formatting: [%d] of [fmt.Sprintf], [strconv.Itoa] *)

Module Strconv.

Definition digit (d : N) : ascii := ascii_of_N (48 + d).

(** Digits are produced from the least significant one, each written in
    front of the ones already there, until the quotient is zero. *)
Fixpoint utoa_rec (fuel : nat) (n : N) (acc : string) : string :=
  match fuel with
  | O => acc
  | S fuel' =>
      let acc' := String (digit (n mod 10)%N) acc in
      if (n <? 10)%N then acc' else utoa_rec fuel' (n / 10)%N acc'
  end.

Definition utoa (n : N) : string := utoa_rec (S (N.size_nat n)) n "".

Definition itoa (z : Z) : string :=
  if z <? 0 then "-" +:+ utoa (Z.to_N (- z)) else utoa (Z.to_N z).

(** The [k] low decimal digits of [n], zero-padded, in front of [acc]. *)
Fixpoint fixed_width (k : nat) (n : N) (acc : string) : string :=
  match k with
  | O => acc
  | S k' => fixed_width k' (n / 10)%N (String (digit (n mod 10)%N) acc)
  end.

End Strconv.

(** ** Errors

    A Go [error] value is [option error]: [None] is [nil]. *)

Inductive Errno : Set :=
  ENOENT | EACCES | EPERM | ENOTEMPTY | EBUSY | EEXIST | EMFILE | ENOSPC | EINVAL.

Inductive error : Set :=
| PathError (op path : string) (errno : Errno)
| SyscallError (call : string) (errno : Errno)
| errors_New (text : string).

(** A call that returns [(value, err)] where the value means nothing
    when [err] is not [nil]. *)
Inductive result (A : Type) : Type :=
| Ok (a : A)
| Err (e : error).
Arguments Ok {A} a.
Arguments Err {A} e.

(** ** The shared directory

    The world of the package is one directory, at path [mount].  [tree]
    is [None] while the directory does not exist.  An entry records its
    content and [pinned], the errno [os.Remove] fails with on it (a
    sticky or read-only parent, an immutable file, a subdirectory that
    is not empty); [None] when it can be unlinked. *)

Record Node : Set := { content : string; pinned : option Errno }.

Record FS : Type := { mount : string; tree : option (gmap string Node) }.

(** Names of a directory in the order [os.ReadDir] returns them: sorted
    by file name. *)
Definition listing (d : gmap string Node) : list string :=
  merge_sort String.le (map_to_list d).*1.

Definition os_ReadDir (name : string) (fs : FS) : list string * option error :=
  if String.eqb name (mount fs) then
    match tree fs with
    | Some d => (listing d, None)
    | None => ([], Some (PathError "open" name ENOENT))
    end
  else ([], Some (PathError "open" name ENOENT)).

(** [os.Remove name]: the entry of the directory whose path is [name]
    is unlinked, unless it is pinned or there is none. *)
Definition os_Remove (name : string) (fs : FS) : FS * option error :=
  match tree fs with
  | None => (fs, Some (PathError "remove" name ENOENT))
  | Some d =>
      match List.find (fun n => String.eqb (GoPath.Join [mount fs; n]) name) (listing d) with
      | None => (fs, Some (PathError "remove" name ENOENT))
      | Some n =>
          match d !! n with
          | None => (fs, Some (PathError "remove" name ENOENT))
          | Some node =>
              match pinned node with
              | Some errno => (fs, Some (PathError "remove" name errno))
              | None => ({| mount := mount fs; tree := Some (delete n d) |}, None)
              end
          end
      end
  end.

(** [os.MkdirAll path perm]: nothing to do when the directory exists;
    the only directory this world can hold is the one at [mount]. *)
Definition os_MkdirAll (path : string) (fs : FS) : FS * option error :=
  if String.eqb path (mount fs) then
    match tree fs with
    | Some _ => (fs, None)
    | None => ({| mount := mount fs; tree := Some ∅ |}, None)
    end
  else (fs, Some (PathError "mkdir" path EACCES)).

(** [ioutil.TempFile dir pattern]: the last [*] of the pattern is
    replaced by a random decimal string; a name that exists already is
    tried again with the next draw, and the call gives up when the draws
    are used up. *)
Fixpoint cut_last_star (s : string) : option (string * string) :=
  match s with
  | EmptyString => None
  | String c s' =>
      match cut_last_star s' with
      | Some (p, q) => Some (String c p, q)
      | None => if Ascii.eqb c "*" then Some (EmptyString, s') else None
      end
  end.

Definition prefixAndSuffix (pattern : string) : string * string :=
  match cut_last_star pattern with
  | Some ps => ps
  | None => (pattern, "")
  end.

Definition temp_name (pattern : string) (random : N) : string :=
  let '(prefix, suffix) := prefixAndSuffix pattern in
  prefix +:+ Strconv.utoa random +:+ suffix.

Definition joinPath (dir name : string) : string :=
  match String.get (String.length dir - 1) dir with
  | Some c => if Ascii.eqb c GoPath.slash then dir +:+ name else dir +:+ "/" +:+ name
  | None => dir +:+ "/" +:+ name
  end.

Fixpoint try_names (dir pattern : string) (d : gmap string Node) (draws : list N)
  : result (string * gmap string Node) :=
  match draws with
  | [] =>
      let '(prefix, suffix) := prefixAndSuffix pattern in
      Err (PathError "createtemp" (joinPath dir prefix +:+ "*" +:+ suffix) EEXIST)
  | r :: draws' =>
      let name := temp_name pattern r in
      match d !! name with
      | Some _ => try_names dir pattern d draws'
      | None => Ok (joinPath dir name, <[name := {| content := ""; pinned := None |}]> d)
      end
  end.

Definition os_TempDir : string := "/tmp".

Definition ioutil_TempFile (dir pattern : string) (draws : list N) (fs : FS)
  : result string * FS :=
  let dir := if String.eqb dir "" then os_TempDir else dir in
  let missing :=
    PathError "open" (joinPath dir (temp_name pattern (hd 0%N draws))) ENOENT in
  if GoPath.has_slash pattern then
    (Err (PathError "createtemp" pattern EINVAL), fs)
  else if String.eqb dir (mount fs) then
    match tree fs with
    | Some d =>
        match try_names dir pattern d draws with
        | Ok (file, d') => (Ok file, {| mount := mount fs; tree := Some d' |})
        | Err e => (Err e, fs)
        end
    | None => (Err missing, fs)
    end
  else (Err missing, fs).

(** ** File-system notifications ([fsnotify])

    A watcher has two channels, [Events] and [Errors].  A receive from a
    channel yields a value and [ok = true], or the zero value and
    [ok = false] once the channel is closed. *)

Record Event : Set := { Name : string; Op : Z }.

Definition fsnotify_Create : Z := 1.
Definition fsnotify_Write : Z := 2.
Definition fsnotify_Remove : Z := 4.
Definition fsnotify_Rename : Z := 8.
Definition fsnotify_Chmod : Z := 16.

Inductive received (A : Type) : Type :=
| Value (a : A)
| Closed.
Arguments Value {A} a.
Arguments Closed {A}.

Definition comma_ok {A : Type} (zero : A) (r : received A) : A * bool :=
  match r with
  | Value a => (a, true)
  | Closed => (zero, false)
  end.

(** Which case of the goroutine's [select] fires, and with what. *)
Inductive ready : Type :=
| FromEvents (r : received Event)
| FromErrors (r : received error).

Record Watcher : Set := { added : list string; closed : bool }.

(** The process and its surroundings: the shared directory, the build
    target, the watchers created so far (a watcher is known by its
    position) and the errors the notification subsystem would answer
    [NewWatcher] and [Add] with. *)
Record World : Type := {
  fs : FS;
  GOOS : string;
  watchers : list Watcher;
  NewWatcher_fault : option error;
  Add_fault : option error
}.

Definition with_fs (f : FS) (w : World) : World :=
  {| fs := f; GOOS := GOOS w; watchers := watchers w;
     NewWatcher_fault := NewWatcher_fault w; Add_fault := Add_fault w |}.

Definition with_watchers (ws : list Watcher) (w : World) : World :=
  {| fs := fs w; GOOS := GOOS w; watchers := ws;
     NewWatcher_fault := NewWatcher_fault w; Add_fault := Add_fault w |}.

Definition fsnotify_NewWatcher (w : World) : result nat * World :=
  match NewWatcher_fault w with
  | Some err => (Err err, w)
  | None =>
      (Ok (length (watchers w)),
       with_watchers (watchers w ++ [{| added := []; closed := false |}]) w)
  end.

Definition watcher_Add (watcher : nat) (name : string) (w : World)
  : option error * World :=
  match Add_fault w with
  | Some err => (Some err, w)
  | None =>
      (None,
       with_watchers
         (alter (fun x => {| added := added x ++ [name]; closed := closed x |})
                watcher (watchers w)) w)
  end.

Definition watcher_Close (watcher : nat) (w : World) : World :=
  with_watchers
    (alter (fun x => {| added := added x; closed := true |}) watcher (watchers w)) w.

Definition is_open (watcher : nat) (w : World) : bool :=
  match watchers w !! watcher with
  | Some x => negb (closed x)
  | None => false
  end.

(** ** The package *)

Record Coordinator : Set := { Dir : string; FilePath : string }.

(** *** WaitForFile

    One turn of the goroutine's [for { select { ... } }] (lines 38-55):
    the values it sends on [channel], in order.  Each send blocks until
    the value is received. *)
Definition WaitForFile_turn (filePath : string) (r : ready) : list (option error) :=
  match r with
  | FromEvents c =>
      let '(event, ok) := comma_ok {| Name := ""; Op := 0 |} c in
      if negb (String.eqb (Name event) filePath) then []
      else
        (if negb ok then [Some (errors_New "fsnotify channel closed abruptly")] else [])
        ++ (if Z.land (Op event) fsnotify_Remove =? fsnotify_Remove then [None] else [])
  | FromErrors c =>
      let '(err, ok) := comma_ok None (match c with
                                       | Value e => Value (Some e)
                                       | Closed => Closed
                                       end) in
      if negb ok then [err] else []
  end.

(** Everything the goroutine sends over a run of turns. *)
Definition WaitForFile_sends (filePath : string) (rs : list ready)
  : list (option error) :=
  flat_map (WaitForFile_turn filePath) rs.

(** The calling side of [WaitForFile] (lines 31-35 and 58-70).  It
    either returns the watcher with the goroutine running, or is inside
    [channel <- err] with the error of [NewWatcher] or [Add]. *)
Inductive setup : Set :=
| Watching (watcher : nat)
| Sending (watcher : option nat) (err : error).

Definition WaitForFile (filePath : string) (w : World) : setup * World :=
  match fsnotify_NewWatcher w with
  | (Err err, w1) => (Sending None err, w1)
  | (Ok watcher, w1) =>
      let target :=
        if String.eqb (GOOS w1) "linux" then GoPath.Dir filePath else filePath in
      match watcher_Add watcher target w1 with
      | (Some err, w2) => (Sending (Some watcher) err, w2)
      | (None, w2) => (Watching watcher, w2)
      end
  end.

(** *** CreateWaitFile *)

Definition namePattern (now : Z) : string :=
  "queuer-" +:+ Strconv.itoa now +:+ "-*".

(** [now] is [time.Now().UnixNano()], [draws] the random numbers
    [ioutil.TempFile] draws. *)
Definition CreateWaitFile (co : Coordinator) (now : Z) (draws : list N) (f : FS)
  : result string * Coordinator * FS :=
  match os_MkdirAll (Dir co) f with
  | (f1, Some err) => (Err err, co, f1)
  | (f1, None) =>
      match ioutil_TempFile (Dir co) (namePattern now) draws f1 with
      | (Err err, f2) => (Err err, co, f2)
      | (Ok file, f2) => (Ok file, {| Dir := Dir co; FilePath := file |}, f2)
      end
  end.

(** The name [CreateWaitFile] gives the marker created at time [now]
    with the draw [random]. *)
Definition wait_file_name (now : Z) (random : N) : string :=
  temp_name (namePattern now) random.

(** *** WaitInLine *)

(** The [for i, f := range files] of lines 101-111, from index [i] on:
    [None] when the function returns at line 107, otherwise the value of
    [toWatch] after the loop. *)
Fixpoint find_place (co : Coordinator) (files : list string) (i : nat)
    (rest : list string) (toWatch : string) : option string :=
  match rest with
  | [] => Some toWatch
  | f :: rest' =>
      if negb (String.eqb (GoPath.Join [Dir co; f]) (FilePath co)) then
        find_place co files (S i) rest' toWatch
      else if Nat.eqb i 0 then None
      else find_place co files (S i) rest'
             (GoPath.Join [Dir co; nth (i - 1) files ""])
  end.

Inductive exit_point : Set :=
| FirstInLine       (* the return of line 107 *)
| Cancelled.        (* the return of line 125 *)

(** Where a call of [WaitInLine] stands. *)
Inductive status : Set :=
| Blocked (toWatch : string) (watcher : nat)
    (* in the select of line 118 *)
| Returned (how : exit_point)
| Fatal (err : error)
    (* log.Fatal: the message is logged and the process exits *)
| Stuck (watcher : option nat) (err : error).
    (* inside WaitForFile, sending on the unbuffered watchChan that
       nothing receives from before WaitForFile returns *)

(** Lines 94-116: list, look for the own marker, start a watcher. *)
Definition iteration (co : Coordinator) (w : World) : status * World :=
  match os_ReadDir (Dir co) (fs w) with
  | (_, Some err) => (Fatal err, w)
  | (files, None) =>
      match find_place co files 0 files "" with
      | None => (Returned FirstInLine, w)
      | Some toWatch =>
          match WaitForFile toWatch w with
          | (Watching watcher, w') => (Blocked toWatch watcher, w')
          | (Sending watcher err, w') => (Stuck watcher err, w')
          end
      end
  end.

(** What can happen while the call is blocked in its select. *)
Inductive fs_change : Set :=
| Created (name : string) (node : Node)
| Removed (name : string)
| DirRemoved.

Definition change (c : fs_change) (f : FS) : FS :=
  match c, tree f with
  | Created n node, Some d => {| mount := mount f; tree := Some (<[n := node]> d) |}
  | Removed n, Some d => {| mount := mount f; tree := Some (delete n d) |}
  | DirRemoved, _ => {| mount := mount f; tree := None |}
  | _, None => f
  end.

Inductive occurrence : Type :=
| Outside (c : fs_change)    (* another process changes the directory *)
| Turn (r : ready)           (* the goroutine of the watcher takes a turn *)
| Done.                      (* ctx.Done() is closed *)

(** Lines 118-128: the select, and after a [nil] on [watchChan] the
    close of the watcher and the next iteration. *)
Definition select (co : Coordinator) (toWatch : string) (watcher : nat)
    (w : World) (o : occurrence) : status * World :=
  match o with
  | Outside c => (Blocked toWatch watcher, with_fs (change c (fs w)) w)
  | Turn r =>
      match WaitForFile_turn toWatch r with
      | [] => (Blocked toWatch watcher, w)
      | Some err :: _ => (Fatal err, w)
      | None :: _ => iteration co (watcher_Close watcher w)
      end
  | Done => (Returned Cancelled, w)
  end.

Fixpoint run (co : Coordinator) (st : status) (w : World) (os : list occurrence)
  : status * World :=
  match os with
  | [] => (st, w)
  | o :: os' =>
      match st with
      | Blocked toWatch watcher =>
          let '(st', w') := select co toWatch watcher w o in run co st' w' os'
      | _ => (st, w)
      end
  end.

Definition WaitInLine (co : Coordinator) (w : World) (os : list occurrence)
  : status * World :=
  let '(st, w') := iteration co w in run co st w' os.

(** The directory as the other processes alone would have left it. *)
Definition outside_changes (os : list occurrence) (f : FS) : FS :=
  fold_left (fun f o => match o with Outside c => change c f | _ => f end) os f.

(** *** CutInLine *)

(** The loop of lines 141-150. *)
Fixpoint CutInLine_loop (co : Coordinator) (files : list string) (f : FS)
  : FS * option error :=
  match files with
  | [] => (f, None)
  | name :: files' =>
      let currentFileName := GoPath.Join [Dir co; name] in
      if String.eqb currentFileName (FilePath co) then (f, None)
      else
        match os_Remove currentFileName f with
        | (f', Some err) => (f', Some err)
        | (f', None) => CutInLine_loop co files' f'
        end
  end.

Definition CutInLine (co : Coordinator) (f : FS) : FS * option error :=
  match os_ReadDir (Dir co) f with
  | (_, Some err) => (f, Some err)
  | (files, None) => CutInLine_loop co files f
  end.

(** ** Vocabulary of the statements *)

(** Every entry of the directory has the name of a directory entry. *)
Definition well_named (d : gmap string Node) : bool :=
  forallb GoPath.entry_name (listing d).

(** The directory after the entries [names] are unlinked, first to last. *)
Definition unlink_all (names : list string) (d : gmap string Node)
  : gmap string Node :=
  fold_left (fun d n => delete n d) names d.

(** [os.Remove] succeeds on entry [n]. *)
Definition removable (d : gmap string Node) (n : string) : Prop :=
  exists node, d !! n = Some node /\ pinned node = None.

(** The marker of [co] is the entry [own] of the directory. *)
Definition own_marker (co : Coordinator) (d : gmap string Node) (own : string) : Prop :=
  is_Some (d !! own) /\ GoPath.Join [Dir co; own] = FilePath co.

(** No entry of the directory is the marker of [co]. *)
Definition marker_missing (co : Coordinator) (d : gmap string Node) : Prop :=
  forall n, is_Some (d !! n) -> GoPath.Join [Dir co; n] <> FilePath co.

(** The call started in world [w0] stands at the head of its loop in
    world [w] after the occurrences [os]: at its first iteration, or
    after a [nil] received from [watchChan] and the close of the watcher
    of the iteration before. *)
Inductive loop_head (co : Coordinator) (w0 : World)
  : list occurrence -> World -> Prop :=
| head_first : loop_head co w0 [] w0
| head_again (os : list occurrence) (toWatch : string) (watcher : nat)
    (w1 : World) (r : ready) :
    WaitInLine co w0 os = (Blocked toWatch watcher, w1) ->
    hd_error (WaitForFile_turn toWatch r) = Some None ->
    loop_head co w0 (os ++ [Turn r]) (watcher_Close watcher w1).

(** A failure met in the loop of the call started in [w0], after the
    occurrences [os] and in world [w]: the listing fails at the head of
    the loop, or an error arrives on [watchChan]. *)
Inductive loop_failure (co : Coordinator) (w0 : World)
  : list occurrence -> World -> error -> Prop :=
| listing_fails (os : list occurrence) (w : World) (files : list string)
    (err : error) :
    loop_head co w0 os w ->
    os_ReadDir (Dir co) (fs w) = (files, Some err) ->
    loop_failure co w0 os w err
| watch_fails (os : list occurrence) (toWatch : string) (watcher : nat)
    (w1 : World) (r : ready) (err : error) :
    WaitInLine co w0 os = (Blocked toWatch watcher, w1) ->
    hd_error (WaitForFile_turn toWatch r) = Some (Some err) ->
    loop_failure co w0 (os ++ [Turn r]) w1 err.

(** The watcher a blocked call waits on is open. *)
Definition blocked_open (st : status) (w : World) : Prop :=
  match st with
  | Blocked _ watcher => is_open watcher w = true
  | _ => True
  end.

(** The notification [event] reports the removal of [filePath]. *)
Definition is_removal_of (filePath : string) (event : Event) : bool :=
  String.eqb (Name event) filePath &&
  (Z.land (Op event) fsnotify_Remove =? fsnotify_Remove).

(** ** A directory with three contenders, for the examples *)

Module Sample.

Definition plain : Node := {| content := ""; pinned := None |}.
Definition sticky : Node := {| content := ""; pinned := Some EPERM |}.

Definition markerA : string := "queuer-1700000000000000001-811".
Definition markerB : string := "queuer-1700000000000000002-4410".
Definition markerC : string := "queuer-1700000000000000003-97".

Definition queue : gmap string Node :=
  <[markerA := plain]> (<[markerB := plain]> (<[markerC := plain]> ∅)).

(** The same queue when the marker of B cannot be unlinked. *)
Definition queue_sticky : gmap string Node :=
  <[markerA := plain]> (<[markerB := sticky]> (<[markerC := plain]> ∅)).

Definition at_example (d : gmap string Node) : FS :=
  {| mount := "/tmp/example"; tree := Some d |}.

Definition world (f : FS) : World :=
  {| fs := f; GOOS := "linux"; watchers := [];
     NewWatcher_fault := None; Add_fault := None |}.

Definition contender (marker : string) : Coordinator :=
  {| Dir := "/tmp/example"; FilePath := "/tmp/example/" +:+ marker |}.

(** A contender whose marker is not in the directory. *)
Definition stranger : Coordinator :=
  contender "queuer-1700000000000000009-5".

Definition removal (marker : string) : Event :=
  {| Name := "/tmp/example/" +:+ marker; Op := fsnotify_Remove |}.

(** All three contenders are queued and no watcher exists yet. *)
Definition start : World := world (at_example queue).

(** B leaves the queue: its marker is unlinked and the removal is
    notified. *)
Definition B_leaves : list occurrence :=
  [Outside (Removed markerB); Turn (FromEvents (Value (removal markerB)))].

End Sample.

(** ** Further vocabulary *)

(** The entry [n] of the shared directory; a directory that does not
    exist has no entries. *)
Definition entry_of (f : FS) (n : string) : option Node :=
  match tree f with
  | Some d => d !! n
  | None => None
  end.

(** An occurrence that is no business of a call blocked on [toWatch]: a
    change made by another process, a notification that is not the
    removal of [toWatch], an error of the watcher. *)
Definition bystander (toWatch : string) (o : occurrence) : bool :=
  match o with
  | Outside _ => true
  | Turn (FromEvents (Value event)) => negb (is_removal_of toWatch event)
  | Turn (FromErrors (Value _)) => true
  | _ => false
  end.

(** The turns of the goroutine on which it sends [nil]. *)
Definition sends_nil (filePath : string) (r : ready) : bool :=
  match r with
  | FromEvents (Value event) => is_removal_of filePath event
  | FromErrors Closed => true
  | _ => false
  end.

(** The watchers from position [n0] on are closed, but for the one at
    [cur]. *)
Definition closed_but (n0 : nat) (cur : option nat) (w : World) : Prop :=
  forall k, (n0 <= k)%nat -> Some k <> cur -> is_open k w = false.

(** The watchers below position [n0] are those of [w0]. *)
Definition same_below (n0 : nat) (w0 w : World) : Prop :=
  (n0 <= length (watchers w))%nat /\
  forall k, (k < n0)%nat -> watchers w !! k = watchers w0 !! k.

(** What a call of [WaitInLine] keeps true of the watchers it has
    created, those from position [n0] on. *)
Definition watchers_kept (n0 : nat) (w0 : World) (st : status) (w : World) : Prop :=
  same_below n0 w0 w /\
  exists cur,
    closed_but n0 cur w /\
    (forall toWatch watcher, st = Blocked toWatch watcher ->
       cur = Some watcher /\ (n0 <= watcher)%nat) /\
    (st = Returned FirstInLine -> cur = None).

(** The string has a minus sign in it. *)
Fixpoint has_dash (s : string) : bool :=
  match s with
  | EmptyString => false
  | String c s' => Ascii.eqb c "-" || has_dash s'
  end.
(** * Properties *)

Module StrOrdFacts.
Import StrOrd.

Lemma compare_refl (s : string) : String.compare s s = Eq.
Proof.
  induction s as [|c s IH]; simpl; [reflexivity|].
  unfold Ascii.compare. now rewrite N.compare_refl.
Qed.

Lemma le_compare (s1 s2 : string) : String.le s1 s2 <-> String.compare s1 s2 <> Gt.
Proof.
  unfold String.le, String.leb.
  destruct (String.compare s1 s2); simpl; split; intros H; try done.
Qed.

Lemma lt_not_le (s1 s2 : string) : lt s1 s2 <-> ~ String.le s2 s1.
Proof.
  rewrite le_compare. unfold lt. rewrite (String.compare_antisym s2 s1).
  destruct (String.compare s1 s2); simpl; split; intros H;
    first [ discriminate | reflexivity
          | (intros H'; now apply H') | (exfalso; apply H; discriminate) ].
Qed.

Lemma lt_le_ne (s1 s2 : string) : lt s1 s2 <-> String.le s1 s2 /\ s1 <> s2.
Proof.
  rewrite le_compare. unfold lt. split.
  - intros H. split; [congruence|]. intros ->. rewrite compare_refl in H. discriminate.
  - intros [Hle Hne]. destruct (String.compare s1 s2) eqn:Hc; try done.
    apply String.compare_eq_iff in Hc. done.
Qed.

Lemma le_lt_eq (s1 s2 : string) : String.le s1 s2 <-> lt s1 s2 \/ s1 = s2.
Proof.
  rewrite lt_le_ne. split.
  - intros H. destruct (decide (s1 = s2)); auto.
  - intros [[H _]| ->]; [done|]. apply le_compare. rewrite compare_refl. discriminate.
Qed.

Lemma lt_irrefl (s : string) : ~ lt s s.
Proof. unfold lt. rewrite compare_refl. discriminate. Qed.

Lemma compare_app (p s1 s2 : string) :
  String.compare (p +:+ s1) (p +:+ s2) = String.compare s1 s2.
Proof.
  induction p as [|c p IH]; simpl; [reflexivity|].
  unfold Ascii.compare at 1. now rewrite N.compare_refl.
Qed.

End StrOrdFacts.

Module GoPathFacts.
Import GoPath.

Example Clean_doc_1 : Clean "a//c" = "a/c". Proof. reflexivity. Qed.
Example Clean_doc_2 : Clean "/../a/b/../././/c" = "/a/c". Proof. reflexivity. Qed.
Example Clean_doc_3 : Clean "a/c/b/.." = "a/c". Proof. reflexivity. Qed.
Example Clean_doc_4 : Clean "a/.." = ".". Proof. reflexivity. Qed.
Example Clean_doc_5 : Clean "../../x/" = "../../x". Proof. reflexivity. Qed.
Example Clean_doc_6 : Clean "/" = "/". Proof. reflexivity. Qed.
Example Clean_doc_7 : Clean "a/../../b" = "../b". Proof. reflexivity. Qed.
Example Join_doc_1 : Join ["a"; "b/c"] = "a/b/c". Proof. reflexivity. Qed.
Example Join_doc_2 : Join ["a"; ""] = "a". Proof. reflexivity. Qed.
Example Join_doc_3 : Join [""; ""] = "". Proof. reflexivity. Qed.
Example Join_doc_4 : Join ["/tmp/example/"; "queuer-1-2"] = "/tmp/example/queuer-1-2".
Proof. reflexivity. Qed.
Example Join_doc_5 : Join ["a/b"; "../../../xyz"] = "../xyz". Proof. reflexivity. Qed.
Example Dir_doc_1 : Dir "/tmp/example/queuer-1-2" = "/tmp/example". Proof. reflexivity. Qed.
Example Dir_doc_2 : Dir "" = ".". Proof. reflexivity. Qed.
Example Dir_doc_3 : Dir "/x" = "/". Proof. reflexivity. Qed.


Lemma append_cons (x : ascii) (a b : string) :
  String x a +:+ b = String x (a +:+ b).
Proof. reflexivity. Qed.

Lemma append_nil_l (b : string) : "" +:+ b = b.
Proof. reflexivity. Qed.

Lemma append_assoc (a b c : string) : (a +:+ b) +:+ c = a +:+ (b +:+ c).
Proof.
  induction a as [|x a IH]; [reflexivity|].
  rewrite !append_cons. now rewrite IH.
Qed.

Lemma append_nil_r (a : string) : a +:+ "" = a.
Proof.
  induction a as [|x a IH]; [reflexivity|].
  rewrite append_cons. now rewrite IH.
Qed.

Lemma append_eq_nil (a b : string) : a +:+ b = "" -> a = "" /\ b = "".
Proof. destruct a; [auto|]. rewrite append_cons. discriminate. Qed.

Lemma elements_not_nil (s : string) : elements s <> [].
Proof.
  induction s as [|c s IH]; simpl; [discriminate|].
  destruct (Ascii.eqb c slash); [discriminate|].
  destruct (elements s); discriminate.
Qed.

Lemma elements_app_slash (a b : string) :
  elements (a +:+ String slash b) = elements a ++ elements b.
Proof.
  induction a as [|c a IH].
  - reflexivity.
  - rewrite append_cons. simpl. destruct (Ascii.eqb c slash).
    + now rewrite IH.
    + rewrite IH. pose proof (elements_not_nil a) as Hne.
      destruct (elements a); [contradiction|reflexivity].
Qed.

Lemma elements_no_slash (n : string) : has_slash n = false -> elements n = [n].
Proof.
  induction n as [|c n IH]; simpl; [reflexivity|].
  intros [Hc Hn]%orb_false_iff. rewrite Hc, (IH Hn). reflexivity.
Qed.

Lemma rooted_app (a b : string) : a <> "" -> rooted (a +:+ b) = rooted a.
Proof. destruct a; [contradiction|reflexivity]. Qed.

Lemma entry_name_spec (n : string) :
  entry_name n = true ->
  n <> "" /\ n <> "." /\ n <> ".." /\ has_slash n = false.
Proof.
  unfold entry_name. rewrite !andb_true_iff, !negb_true_iff, !String.eqb_neq.
  tauto.
Qed.

Lemma clean_step_entry (root : bool) (out : list string) (n : string) :
  entry_name n = true -> clean_step root out n = n :: out.
Proof.
  intros (H1 & H2 & H3 & _)%entry_name_spec. unfold clean_step.
  apply String.eqb_neq in H1, H2, H3. now rewrite H1, H2, H3.
Qed.

Lemma concat_snoc (l : list string) (n : string) :
  String.concat "/" (l ++ [n]) =
  (match l with [] => "" | _ => String.concat "/" l +:+ "/" end) +:+ n.
Proof.
  induction l as [|x l IH]; [reflexivity|].
  destruct l as [|y l].
  - simpl. now rewrite append_assoc.
  - change (String.concat "/" ((x :: y :: l) ++ [n]))
      with (x +:+ "/" +:+ String.concat "/" ((y :: l) ++ [n])).
    rewrite IH.
    change (String.concat "/" (x :: y :: l))
      with (x +:+ "/" +:+ String.concat "/" (y :: l)).
    now rewrite !append_assoc.
Qed.

Lemma Clean_entry (d n : string) :
  d <> "" -> entry_name n = true ->
  Clean (d +:+ String slash n) =
  render (rooted d)
    (n :: fold_left (clean_step (rooted d)) (elements d) []).
Proof.
  intros Hd Hn. pose proof (entry_name_spec n Hn) as (Hne & _ & _ & Hs).
  unfold Clean.
  destruct (String.eqb_spec (d +:+ String slash n) "") as [He|_].
  { apply append_eq_nil in He as [_ He]. discriminate. }
  rewrite (rooted_app d _ Hd), elements_app_slash, (elements_no_slash n Hs).
  rewrite fold_left_app. cbn [fold_left]. cbv zeta.
  rewrite (clean_step_entry _ _ _ Hn).
  match goal with |- (if String.eqb ?s "" then _ else _) = _ =>
    destruct (String.eqb_spec s "") as [He|_]; [|reflexivity] end.
  unfold render in He. apply append_eq_nil in He as [_ He].
  simpl rev in He. rewrite concat_snoc in He.
  apply append_eq_nil in He as [_ He]. contradiction.
Qed.


Lemma Join_pair (d n : string) :
  n <> "" ->
  Join [d; n] = Clean (if String.eqb d "" then n else d +:+ String slash n).
Proof.
  intros Hn. unfold Join. cbn [List.filter].
  apply String.eqb_neq in Hn. rewrite Hn.
  destruct (String.eqb d ""); reflexivity.
Qed.

Lemma rooted_entry (n : string) : has_slash n = false -> rooted n = false.
Proof.
  destruct n as [|c n]; [reflexivity|]. cbn [has_slash rooted].
  now intros [H _]%orb_false_iff.
Qed.

(** The path of an entry of directory [d] is a prefix depending on [d]
    alone, followed by the name of the entry. *)
Lemma Join_entry (d : string) :
  exists p, forall n, entry_name n = true -> Join [d; n] = p +:+ n.
Proof.
  destruct (String.eqb_spec d "") as [->|Hd].
  - exists "". intros n Hn.
    pose proof (entry_name_spec n Hn) as (Hne & _ & _ & Hs).
    rewrite (Join_pair _ _ Hne). cbn [String.eqb].
    apply String.eqb_neq in Hne as Hne'.
    unfold Clean. rewrite Hne', (elements_no_slash n Hs), (rooted_entry n Hs).
    cbn [fold_left]. rewrite (clean_step_entry _ _ _ Hn).
    unfold render. cbn [rev app String.concat]. rewrite !append_nil_l.
    now rewrite Hne'.
  - set (out := fold_left (clean_step (rooted d)) (elements d) []).
    exists ((if rooted d then "/" else "") +:+
            match rev out with [] => "" | _ => String.concat "/" (rev out) +:+ "/" end).
    intros n Hn.
    pose proof (entry_name_spec n Hn) as (Hne & _ & _ & Hs).
    rewrite (Join_pair _ _ Hne).
    apply String.eqb_neq in Hd as Hd'. rewrite Hd'.
    rewrite (Clean_entry d n Hd Hn). fold out. unfold render. cbn [rev].
    rewrite concat_snoc. now rewrite append_assoc.
Qed.

Lemma Join_entry_inj (d a b : string) :
  entry_name a = true -> entry_name b = true ->
  Join [d; a] = Join [d; b] -> a = b.
Proof.
  intros Ha Hb. destruct (Join_entry d) as [p Hp].
  rewrite (Hp a Ha), (Hp b Hb). apply String.app_inj.
Qed.

End GoPathFacts.

Module DirFacts.
Import StrOrd StrOrdFacts GoPathFacts.

Lemma elem_of_listing (d : gmap string Node) (n : string) :
  n ∈ listing d <-> is_Some (d !! n).
Proof.
  unfold listing. rewrite merge_sort_Permutation, list_elem_of_fmap. split.
  - intros ([k v] & -> & Hkv). apply elem_of_map_to_list in Hkv. eauto.
  - intros [v Hv]. exists (n, v). split; [reflexivity|].
    now apply elem_of_map_to_list.
Qed.

Lemma NoDup_listing (d : gmap string Node) : NoDup (listing d).
Proof.
  unfold listing. rewrite merge_sort_Permutation. apply NoDup_fst_map_to_list.
Qed.

Lemma listing_sorted (d : gmap string Node) : StronglySorted String.le (listing d).
Proof. apply (StronglySorted_merge_sort String.le). Qed.

Lemma listing_empty : listing ∅ = [].
Proof. reflexivity. Qed.

Lemma well_named_spec (d : gmap string Node) :
  well_named d = true <-> forall n, is_Some (d !! n) -> GoPath.entry_name n = true.
Proof.
  unfold well_named. rewrite forallb_forall. split.
  - intros H n Hn. apply H, list_elem_of_In, elem_of_listing, Hn.
  - intros H n Hn. apply H, elem_of_listing, list_elem_of_In, Hn.
Qed.

Lemma well_named_delete (d : gmap string Node) (n : string) :
  well_named d = true -> well_named (delete n d) = true.
Proof.
  rewrite !well_named_spec. intros H k [v Hk]. apply H.
  apply lookup_delete_Some in Hk as [_ Hk]. eauto.
Qed.

Lemma unlink_all_lookup (names : list string) (d : gmap string Node) (k : string) :
  unlink_all names d !! k = if decide (k ∈ names) then None else d !! k.
Proof.
  revert d. induction names as [|n names IH]; intros d; simpl.
  - reflexivity.
  - unfold unlink_all in *. simpl. rewrite IH.
    destruct (decide (k ∈ names)) as [Hin|Hnin].
    + rewrite decide_True; [reflexivity|]. now right.
    + destruct (decide (k = n)) as [->|Hne].
      * rewrite decide_True by left. apply lookup_delete_eq.
      * rewrite decide_False.
        -- now apply lookup_delete_ne.
        -- intros [?|?]%elem_of_cons; contradiction.
Qed.

Lemma unlink_all_listing : forall d, unlink_all (listing d) d = ∅.
Proof.
  intros d. apply map_eq. intros k. rewrite unlink_all_lookup, lookup_empty.
  destruct (decide (k ∈ listing d)) as [|Hn]; [reflexivity|].
  rewrite elem_of_listing in Hn. now apply eq_None_not_Some.
Qed.

End DirFacts.

Module CutInLineFacts.
Import StrOrd StrOrdFacts GoPathFacts DirFacts.

Section Cut.
Context (co : Coordinator).

Lemma find_entry (d : gmap string Node) (n : string) :
  well_named d = true -> is_Some (d !! n) ->
  List.find (fun x => String.eqb (GoPath.Join [Dir co; x]) (GoPath.Join [Dir co; n])) (listing d)
  = Some n.
Proof.
  intros Hwn Hn. rewrite well_named_spec in Hwn.
  destruct (List.find _ (listing d)) as [x|] eqn:Hf.
  - apply find_some in Hf as [Hx Heq].
    apply String.eqb_eq in Heq. f_equal.
    apply (Join_entry_inj (Dir co)); auto.
    apply Hwn, elem_of_listing, list_elem_of_In, Hx.
  - assert (Hin : In n (listing d)) by apply list_elem_of_In, elem_of_listing, Hn.
    pose proof (find_none _ _ Hf n Hin) as Hfalse. cbv beta in Hfalse.
    rewrite String.eqb_refl in Hfalse. discriminate.
Qed.

Lemma os_Remove_entry (f : FS) (d : gmap string Node) (n : string) (node : Node) :
  mount f = Dir co -> tree f = Some d -> well_named d = true ->
  d !! n = Some node ->
  os_Remove (GoPath.Join [Dir co; n]) f =
  match pinned node with
  | Some errno => (f, Some (PathError "remove" (GoPath.Join [Dir co; n]) errno))
  | None => ({| mount := mount f; tree := Some (delete n d) |}, None)
  end.
Proof.
  intros Hm Ht Hwn Hn. unfold os_Remove. rewrite Ht, Hm.
  rewrite (find_entry d n Hwn) by eauto. now rewrite Hn.
Qed.

(** The loop unlinks a run of removable entries that are not the marker
    and goes on with the rest. *)
Lemma CutInLine_loop_run (removed files : list string) :
  forall (m : string) (d : gmap string Node),
  m = Dir co -> well_named d = true -> NoDup removed ->
  (forall n, n ∈ removed -> GoPath.Join [Dir co; n] <> FilePath co /\ removable d n) ->
  CutInLine_loop co (removed ++ files) {| mount := m; tree := Some d |} =
  CutInLine_loop co files {| mount := m; tree := Some (unlink_all removed d) |}.
Proof.
  induction removed as [|n removed IH]; intros m d Hm Hwn Hnd Hall.
  - reflexivity.
  - destruct (Hall n) as [Hne (node & Hnode & Hpin)]; [left|].
    apply NoDup_cons in Hnd as [Hnin Hnd].
    cbn [app CutInLine_loop].
    apply String.eqb_neq in Hne. rewrite Hne.
    rewrite (os_Remove_entry _ d n node); auto. rewrite Hpin.
    cbn [mount]. rewrite IH; auto.
    + now apply well_named_delete.
    + intros k Hk. destruct (Hall k) as [Hk1 (nk & Hk2 & Hk3)]; [now right|].
      split; [assumption|]. exists nk. split; [|assumption].
      rewrite lookup_delete_ne; [assumption|]. intros ->. contradiction.
Qed.


Lemma removable_dec (d : gmap string Node) (n : string) :
  {removable d n} + {exists node errno, d !! n = Some node /\ pinned node = Some errno}
  + {d !! n = None}.
Proof.
  destruct (d !! n) as [node|] eqn:Hn; [|now right].
  left. destruct (pinned node) as [errno|] eqn:Hp.
  - right. eauto.
  - left. exists node. auto.
Qed.

(** A list of entries is removable throughout, or has a first entry on
    which [os.Remove] fails. *)
Lemma first_pinned (d : gmap string Node) (l : list string) :
  (forall n, n ∈ l -> is_Some (d !! n)) ->
  (forall n, n ∈ l -> removable d n) \/
  (exists a x b node errno,
      l = a ++ x :: b /\ (forall n, n ∈ a -> removable d n) /\
      d !! x = Some node /\ pinned node = Some errno).
Proof.
  induction l as [|y l IH]; intros Hdom.
  - left. intros n Hn. inversion Hn.
  - destruct (removable_dec d y) as [[Hy|Hy]|Hy].
    + destruct IH as [Hall|(a & x & b & node & errno & -> & Ha & Hx & Hp)].
      * intros n Hn. apply Hdom. now right.
      * left. intros n [->|Hn]%elem_of_cons; auto.
      * right. exists (y :: a), x, b, node, errno. split; [reflexivity|].
        split; [|auto]. intros n [->|Hn]%elem_of_cons; auto.
    + destruct Hy as (node & errno & Hn & Hp). right.
      exists [], y, l, node, errno. split; [reflexivity|]. split; [|auto].
      intros n Hn'. inversion Hn'.
    + destruct (Hdom y) as [v Hv]; [left|]. congruence.
Qed.

(** In a sorted listing the entries before a position sort strictly
    before the entry there, and the entries after it strictly after. *)
Lemma listing_split (d : gmap string Node) (pre post : list string) (x : string) :
  listing d = pre ++ x :: post ->
  (forall n, n ∈ pre -> lt n x) /\ (forall n, n ∈ post -> lt x n).
Proof.
  intros Hl. pose proof (NoDup_listing d) as Hnd.
  pose proof (listing_sorted d) as Hs. rewrite Hl in Hnd, Hs.
  apply NoDup_app in Hnd as (_ & Hpre & Hpost%NoDup_cons).
  destruct Hpost as [Hpost _].
  pose proof (StronglySorted_app_1_r _ _ _ Hs) as Hs2.
  apply StronglySorted_cons in Hs2 as [Hs2 _].
  split.
  - intros n Hn. apply lt_le_ne. split.
    + apply (StronglySorted_app_1_elem_of _ _ _ n x Hs Hn). left.
    + intros ->. apply (Hpre x Hn). left.
  - intros n Hn. apply lt_le_ne. split.
    + rewrite Forall_forall in Hs2. auto.
    + intros ->. contradiction.
Qed.

Lemma lt_le_absurd (a b : string) : lt a b -> String.le b a -> False.
Proof. intros H1 H2. now apply lt_not_le in H1. Qed.


Lemma CutInLine_listing (f : FS) (d : gmap string Node) :
  mount f = Dir co -> tree f = Some d ->
  CutInLine co f = CutInLine_loop co (listing d) {| mount := Dir co; tree := Some d |}.
Proof.
  intros Hm Ht. unfold CutInLine, os_ReadDir.
  rewrite Hm, String.eqb_refl, Ht. destruct f as [m t]. simpl in *. now subst.
Qed.

Lemma CutInLine_stops_at_failure (d : gmap string Node)
    (removed : list string) (failing : string) (rest : list string)
    (node : Node) (errno : Errno) :
  well_named d = true -> NoDup (removed ++ failing :: rest) ->
  (forall n, n ∈ removed -> GoPath.Join [Dir co; n] <> FilePath co /\ removable d n) ->
  GoPath.Join [Dir co; failing] <> FilePath co ->
  d !! failing = Some node -> pinned node = Some errno ->
  CutInLine_loop co (removed ++ failing :: rest) {| mount := Dir co; tree := Some d |} =
  ({| mount := Dir co; tree := Some (unlink_all removed d) |},
   Some (PathError "remove" (GoPath.Join [Dir co; failing]) errno)).
Proof.
  intros Hwn Hnd Hrem Hne Hnode Hpin.
  apply NoDup_app in Hnd as (Hnd & Hdisj & _).
  rewrite CutInLine_loop_run; auto.
  cbn [CutInLine_loop]. apply String.eqb_neq in Hne. rewrite Hne.
  rewrite (os_Remove_entry _ (unlink_all removed d) failing node); auto.
  - now rewrite Hpin.
  - apply well_named_spec. intros n [v Hn]. rewrite unlink_all_lookup in Hn.
    destruct (decide (n ∈ removed)); [discriminate|].
    rewrite well_named_spec in Hwn. eauto.
  - rewrite unlink_all_lookup. rewrite decide_False; [assumption|].
    intros Hin. apply (Hdisj _ Hin). left.
Qed.

Lemma CutInLine_stops_at_marker (d : gmap string Node)
    (removed : list string) (own : string) (rest : list string) :
  well_named d = true -> NoDup removed ->
  (forall n, n ∈ removed -> GoPath.Join [Dir co; n] <> FilePath co /\ removable d n) ->
  GoPath.Join [Dir co; own] = FilePath co ->
  CutInLine_loop co (removed ++ own :: rest) {| mount := Dir co; tree := Some d |} =
  ({| mount := Dir co; tree := Some (unlink_all removed d) |}, None).
Proof.
  intros Hwn Hnd Hrem Hown. rewrite CutInLine_loop_run; auto.
  cbn [CutInLine_loop]. apply String.eqb_eq in Hown. now rewrite Hown.
Qed.

Lemma CutInLine_runs_to_end (d : gmap string Node) (removed : list string) :
  well_named d = true -> NoDup removed ->
  (forall n, n ∈ removed -> GoPath.Join [Dir co; n] <> FilePath co /\ removable d n) ->
  CutInLine_loop co removed {| mount := Dir co; tree := Some d |} =
  ({| mount := Dir co; tree := Some (unlink_all removed d) |}, None).
Proof.
  intros Hwn Hnd Hrem. rewrite <- (app_nil_r removed) at 1.
  rewrite CutInLine_loop_run; auto.
Qed.

End Cut.

(** C7: when the removal of an entry fails, [CutInLine] returns the
    error of that removal at once: the entries unlinked before it stay
    unlinked, and every other entry, in particular every entry at or
    after the caller's own marker, is as it was. *)
Theorem CutInLine_removal_failure (co : Coordinator) (f : FS)
    (d : gmap string Node) (removed : list string) (failing : string)
    (rest : list string) (node : Node) (errno : Errno) :
  mount f = Dir co -> tree f = Some d -> well_named d = true ->
  listing d = removed ++ failing :: rest ->
  (forall n, n ∈ removed -> GoPath.Join [Dir co; n] <> FilePath co /\ removable d n) ->
  GoPath.Join [Dir co; failing] <> FilePath co ->
  d !! failing = Some node -> pinned node = Some errno ->
  exists d',
    CutInLine co f =
      ({| mount := mount f; tree := Some d' |},
       Some (PathError "remove" (GoPath.Join [Dir co; failing]) errno)) /\
    (forall n, n ∈ removed -> d' !! n = None) /\
    (forall n, n ∉ removed -> d' !! n = d !! n) /\
    (forall own n, own_marker co d own -> String.le own n -> d' !! n = d !! n).
Proof.
  intros Hm Ht Hwn Hl Hrem Hne Hnode Hpin.
  exists (unlink_all removed d).
  assert (Hkeep : forall n, n ∉ removed -> unlink_all removed d !! n = d !! n).
  { intros n Hn. rewrite unlink_all_lookup. now rewrite decide_False. }
  split; [|split; [|split]]; auto.
  - rewrite (CutInLine_listing co f d Hm Ht), Hl, Hm.
    apply CutInLine_stops_at_failure with (node := node); auto.
    rewrite <- Hl. apply NoDup_listing.
  - intros n Hn. rewrite unlink_all_lookup. now rewrite decide_True.
  - intros own n [Hown Hj] Hle. apply Hkeep. intros Hin.
    destruct (listing_split d removed rest failing Hl) as [Hpre Hpost].
    assert (Hin' : own ∈ listing d) by now apply elem_of_listing.
    rewrite Hl in Hin'.
    apply elem_of_app in Hin' as [Ho|Ho].
    { now destruct (Hrem own Ho). }
    apply elem_of_cons in Ho as [->|Ho]; [contradiction|].
    apply (lt_le_absurd n failing (Hpre n Hin)).
    transitivity own; [|assumption].
    apply le_lt_eq. left. auto.
Qed.

Lemma CutInLine_removal_failure_witness :
  exists d',
    CutInLine (Sample.contender Sample.markerC) (Sample.at_example Sample.queue_sticky) =
      ({| mount := "/tmp/example"; tree := Some d' |},
       Some (PathError "remove" "/tmp/example/queuer-1700000000000000002-4410" EPERM)) /\
    (forall n, n ∈ [Sample.markerA] -> d' !! n = None) /\
    (forall n, n ∉ [Sample.markerA] -> d' !! n = Sample.queue_sticky !! n) /\
    (forall own n,
        own_marker (Sample.contender Sample.markerC) Sample.queue_sticky own ->
        String.le own n -> d' !! n = Sample.queue_sticky !! n).
Proof.
  apply (CutInLine_removal_failure (Sample.contender Sample.markerC)
           (Sample.at_example Sample.queue_sticky) Sample.queue_sticky
           [Sample.markerA] Sample.markerB [Sample.markerC] Sample.sticky EPERM).
  - reflexivity.
  - reflexivity.
  - vm_compute. reflexivity.
  - vm_compute. reflexivity.
  - intros n ->%list_elem_of_singleton. split.
    + vm_compute. discriminate.
    + exists Sample.plain. split; vm_compute; reflexivity.
  - vm_compute. discriminate.
  - vm_compute. reflexivity.
  - reflexivity.
Defined.

(** C10: when no entry of the directory is the caller's marker, the loop
    never meets its stop condition and goes through every entry: a
    [CutInLine] that returns [nil] has emptied the directory, and it
    returns [nil] whenever each removal succeeds. *)
Theorem CutInLine_marker_missing (co : Coordinator) (f : FS) (d : gmap string Node) :
  mount f = Dir co -> tree f = Some d -> well_named d = true ->
  marker_missing co d ->
  (forall f', CutInLine co f = (f', None) ->
              f' = {| mount := mount f; tree := Some ∅ |}) /\
  ((forall n, is_Some (d !! n) -> removable d n) ->
   CutInLine co f = ({| mount := mount f; tree := Some ∅ |}, None)).
Proof.
  intros Hm Ht Hwn Hmiss.
  rewrite (CutInLine_listing co f d Hm Ht), Hm.
  assert (Hall : (forall n, n ∈ listing d -> removable d n) ->
                 CutInLine_loop co (listing d) {| mount := Dir co; tree := Some d |} =
                 ({| mount := Dir co; tree := Some ∅ |}, None)).
  { intros Hrem. rewrite CutInLine_runs_to_end; auto.
    - now rewrite unlink_all_listing.
    - apply NoDup_listing.
    - intros n Hn. split; [|auto]. now apply Hmiss, elem_of_listing. }
  split.
  - intros f' Hcut.
    assert (Hdom : forall n, n ∈ listing d -> is_Some (d !! n)).
    { intros n Hn. now apply elem_of_listing. }
    destruct (first_pinned d (listing d) Hdom)
      as [Hrem|(a & x & b & node & errno & Hl & Ha & Hx & Hp)].
    + rewrite (Hall Hrem) in Hcut. now injection Hcut as <-.
    + rewrite Hl in Hcut.
      rewrite (CutInLine_stops_at_failure co d a x b node errno) in Hcut; auto.
      * discriminate.
      * rewrite <- Hl. apply NoDup_listing.
      * intros n Hn. split; [|auto]. apply Hmiss, elem_of_listing.
        rewrite Hl. apply elem_of_app. now left.
  - intros Hrem. apply Hall. intros n Hn%elem_of_listing. auto.
Qed.

Lemma CutInLine_marker_missing_witness :
  (forall f', CutInLine Sample.stranger (Sample.at_example Sample.queue) = (f', None) ->
              f' = {| mount := "/tmp/example"; tree := Some ∅ |}) /\
  ((forall n, is_Some (Sample.queue !! n) -> removable Sample.queue n) ->
   CutInLine Sample.stranger (Sample.at_example Sample.queue) =
   ({| mount := "/tmp/example"; tree := Some ∅ |}, None)).
Proof.
  apply (CutInLine_marker_missing Sample.stranger
           (Sample.at_example Sample.queue) Sample.queue).
  - reflexivity.
  - reflexivity.
  - vm_compute. reflexivity.
  - intros n Hn%elem_of_listing. vm_compute in Hn.
    repeat (apply elem_of_cons in Hn as [->|Hn]; [vm_compute; discriminate|]).
    inversion Hn.
Defined.

(** The cutter of the tests: eleven markers, the last one cuts, one
    entry is left; here with three. *)
Example C_cuts_in_line :
  CutInLine (Sample.contender Sample.markerC) (Sample.at_example Sample.queue)
  = (Sample.at_example {[ Sample.markerC := Sample.plain ]}, None).
Proof. vm_compute. reflexivity. Qed.

Example stranger_cuts_everything :
  CutInLine Sample.stranger (Sample.at_example Sample.queue)
  = (Sample.at_example ∅, None).
Proof. vm_compute. reflexivity. Qed.



End CutInLineFacts.

Module WaitInLineFacts.
Import StrOrd StrOrdFacts GoPathFacts DirFacts.

Section Wait.
Context (co : Coordinator).

(** *** The scan of the listing *)

Lemma find_place_no_match (files rest : list string) (i : nat) (toWatch : string) :
  (forall n, n ∈ rest -> GoPath.Join [Dir co; n] <> FilePath co) ->
  find_place co files i rest toWatch = Some toWatch.
Proof.
  revert i. induction rest as [|f rest IH]; intros i Hno; [reflexivity|].
  cbn [find_place].
  assert (Hf : GoPath.Join [Dir co; f] <> FilePath co) by (apply Hno; left).
  apply String.eqb_neq in Hf. rewrite Hf. cbn [negb].
  apply IH. intros n Hn. apply Hno. now right.
Qed.

Lemma find_place_match (files before after : list string) (own : string)
    (i : nat) (toWatch : string) :
  (forall n, n ∈ before -> GoPath.Join [Dir co; n] <> FilePath co) ->
  (forall n, n ∈ after -> GoPath.Join [Dir co; n] <> FilePath co) ->
  GoPath.Join [Dir co; own] = FilePath co ->
  find_place co files i (before ++ own :: after) toWatch =
  match (i + length before)%nat with
  | O => None
  | S j => Some (GoPath.Join [Dir co; nth j files ""])
  end.
Proof.
  revert i. induction before as [|f before IH]; intros i Hb Ha Hown.
  - cbn [app find_place length]. apply String.eqb_eq in Hown. rewrite Hown.
    cbn [negb]. rewrite Nat.add_0_r. destruct i as [|j]; [reflexivity|].
    cbn [Nat.eqb]. rewrite find_place_no_match by assumption.
    replace (S j - 1)%nat with j by lia. reflexivity.
  - cbn [app find_place length].
    assert (Hf : GoPath.Join [Dir co; f] <> FilePath co) by (apply Hb; left).
    apply String.eqb_neq in Hf. rewrite Hf. cbn [negb].
    rewrite IH; auto.
    + now rewrite Nat.add_succ_r.
    + intros n Hn. apply Hb. now right.
Qed.

(** The own marker is at index [i] of a listing without duplicates: the
    scan returns at index 0 and otherwise leaves the path of the entry at
    index [i - 1] in [toWatch]. *)
Lemma find_place_listing (d : gmap string Node) (own : string) (i : nat) :
  well_named d = true ->
  listing d !! i = Some own -> GoPath.Join [Dir co; own] = FilePath co ->
  find_place co (listing d) 0 (listing d) "" =
  match i with
  | O => None
  | S j => Some (GoPath.Join [Dir co; nth j (listing d) ""])
  end.
Proof.
  intros Hwn Hi Hown. rewrite well_named_spec in Hwn.
  pose proof (NoDup_listing d) as Hnd.
  assert (Hlen : (i < length (listing d))%nat) by (eapply lookup_lt_Some; eauto).
  assert (Hsplit : listing d = take i (listing d) ++ own :: drop (S i) (listing d)).
  { rewrite <- (take_drop_middle _ _ _ Hi) at 1. reflexivity. }
  assert (Hother : forall n, n ∈ listing d -> n <> own ->
                             GoPath.Join [Dir co; n] <> FilePath co).
  { intros n Hn Hne Heq. rewrite <- Hown in Heq. apply Hne.
    apply (Join_entry_inj (Dir co)); auto.
    - apply Hwn, elem_of_listing, Hn.
    - apply Hwn, elem_of_listing, list_elem_of_lookup. eauto. }
  rewrite Hsplit in Hnd. apply NoDup_app in Hnd as (_ & Hpre & Hpost%NoDup_cons).
  rewrite Hsplit at 2.
  rewrite find_place_match; auto.
  - rewrite length_take, Nat.min_l by lia. reflexivity.
  - intros n Hn. apply Hother.
    + rewrite Hsplit. apply elem_of_app. now left.
    + intros ->. apply (Hpre own Hn). left.
  - intros n Hn. apply Hother.
    + rewrite Hsplit. apply elem_of_app. right. now right.
    + intros ->. now destruct Hpost.
Qed.


(** *** The loop *)

Lemma run_not_blocked (st : status) (w : World) (os : list occurrence) :
  (forall toWatch watcher, st <> Blocked toWatch watcher) ->
  run co st w os = (st, w).
Proof.
  intros Hst. destruct os as [|o os]; [reflexivity|].
  destruct st; try reflexivity. now destruct (Hst toWatch watcher).
Qed.

Lemma run_app (os1 os2 : list occurrence) :
  forall (st : status) (w : World),
  run co st w (os1 ++ os2) =
  let '(st1, w1) := run co st w os1 in run co st1 w1 os2.
Proof.
  induction os1 as [|o os1 IH]; intros st w; [reflexivity|].
  cbn [app run]. destruct st; try (symmetry; now apply run_not_blocked).
  destruct (select co toWatch watcher w o) as [st' w']. apply IH.
Qed.

Lemma WaitInLine_snoc (w0 w1 : World) (os : list occurrence) (o : occurrence)
    (toWatch : string) (watcher : nat) :
  WaitInLine co w0 os = (Blocked toWatch watcher, w1) ->
  WaitInLine co w0 (os ++ [o]) = select co toWatch watcher w1 o.
Proof.
  unfold WaitInLine. destruct (iteration co w0) as [st w].
  rewrite run_app. intros ->. cbn [run].
  now destruct (select co toWatch watcher w1 o).
Qed.

(** A call that is blocked has taken every occurrence in. *)
Lemma WaitInLine_wakes (w0 w1 : World) (os : list occurrence) (r : ready)
    (toWatch : string) (watcher : nat) :
  WaitInLine co w0 os = (Blocked toWatch watcher, w1) ->
  hd_error (WaitForFile_turn toWatch r) = Some None ->
  WaitInLine co w0 (os ++ [Turn r]) = iteration co (watcher_Close watcher w1).
Proof.
  intros Hb Hr. rewrite (WaitInLine_snoc _ _ _ _ _ _ Hb). cbn [select].
  destruct (WaitForFile_turn toWatch r) as [|[e|] l]; try discriminate.
  reflexivity.
Qed.

Lemma WaitInLine_watch_error (w0 w1 : World) (os : list occurrence) (r : ready)
    (toWatch : string) (watcher : nat) (err : error) :
  WaitInLine co w0 os = (Blocked toWatch watcher, w1) ->
  hd_error (WaitForFile_turn toWatch r) = Some (Some err) ->
  WaitInLine co w0 (os ++ [Turn r]) = (Fatal err, w1).
Proof.
  intros Hb Hr. rewrite (WaitInLine_snoc _ _ _ _ _ _ Hb). cbn [select].
  destruct (WaitForFile_turn toWatch r) as [|[e|] l]; try discriminate.
  now injection Hr as ->.
Qed.

Lemma WaitInLine_at_head (w0 w : World) (os : list occurrence) :
  loop_head co w0 os w -> WaitInLine co w0 os = iteration co w.
Proof.
  intros [|os' toWatch watcher w1 r Hb Hr].
  - unfold WaitInLine. now destruct (iteration co w0).
  - now apply WaitInLine_wakes with (toWatch := toWatch).
Qed.

(** *** One iteration *)

Lemma iteration_listing (w : World) (d : gmap string Node) :
  mount (fs w) = Dir co -> tree (fs w) = Some d ->
  iteration co w =
  match find_place co (listing d) 0 (listing d) "" with
  | None => (Returned FirstInLine, w)
  | Some toWatch =>
      match WaitForFile toWatch w with
      | (Watching watcher, w') => (Blocked toWatch watcher, w')
      | (Sending watcher err, w') => (Stuck watcher err, w')
      end
  end.
Proof.
  intros Hm Ht. unfold iteration, os_ReadDir.
  now rewrite Hm, String.eqb_refl, Ht.
Qed.

Lemma WaitForFile_fs (filePath : string) (w : World) :
  fs (snd (WaitForFile filePath w)) = fs w.
Proof.
  unfold WaitForFile, fsnotify_NewWatcher, watcher_Add.
  destruct (NewWatcher_fault w); [reflexivity|]. cbn [Add_fault with_watchers].
  destruct (Add_fault w); reflexivity.
Qed.

Lemma iteration_fs (w : World) : fs (snd (iteration co w)) = fs w.
Proof.
  unfold iteration. destruct (os_ReadDir (Dir co) (fs w)) as [files [err|]];
    [reflexivity|].
  destruct (find_place co files 0 files ""); [|reflexivity].
  pose proof (WaitForFile_fs s w) as H.
  destruct (WaitForFile s w) as [[watcher|watcher err] w']; exact H.
Qed.

Lemma select_fs (toWatch : string) (watcher : nat) (w : World) (o : occurrence) :
  fs (snd (select co toWatch watcher w o)) =
  match o with Outside c => change c (fs w) | _ => fs w end.
Proof.
  destruct o as [c|r|]; cbn [select]; try reflexivity.
  destruct (WaitForFile_turn toWatch r) as [|[e|] l]; try reflexivity.
  now rewrite iteration_fs.
Qed.




(** *** Watchers *)

Lemma WaitForFile_watchers (filePath : string) (w w' : World) (watcher : nat) :
  WaitForFile filePath w = (Watching watcher, w') ->
  is_open watcher w' = true /\
  (forall k, (k < length (watchers w))%nat -> watchers w' !! k = watchers w !! k).
Proof.
  unfold WaitForFile, fsnotify_NewWatcher, watcher_Add.
  destruct (NewWatcher_fault w); [discriminate|]. cbn [Add_fault with_watchers].
  destruct (Add_fault w); [discriminate|].
  intros [= <- <-]. unfold is_open. cbn [watchers with_watchers]. split.
  - rewrite list_lookup_alter_eq, list_lookup_middle by reflexivity. reflexivity.
  - intros k Hk. rewrite list_lookup_alter_ne by lia. now apply lookup_app_l.
Qed.

Lemma WaitForFile_keeps (filePath : string) (w : World) (k : nat) :
  (k < length (watchers w))%nat ->
  watchers (snd (WaitForFile filePath w)) !! k = watchers w !! k.
Proof.
  intros Hk. unfold WaitForFile, fsnotify_NewWatcher, watcher_Add.
  destruct (NewWatcher_fault w); [reflexivity|]. cbn [Add_fault with_watchers].
  destruct (Add_fault w); cbn [snd watchers with_watchers].
  - now apply lookup_app_l.
  - rewrite list_lookup_alter_ne by lia. now apply lookup_app_l.
Qed.

Lemma iteration_keeps (w : World) (k : nat) :
  (k < length (watchers w))%nat ->
  watchers (snd (iteration co w)) !! k = watchers w !! k.
Proof.
  intros Hk. unfold iteration.
  destruct (os_ReadDir (Dir co) (fs w)) as [files [err|]]; [reflexivity|].
  destruct (find_place co files 0 files ""); [|reflexivity].
  pose proof (WaitForFile_keeps s w k Hk) as H.
  destruct (WaitForFile s w) as [[watcher|watcher err] w']; exact H.
Qed.

Lemma iteration_open (w w' : World) (toWatch : string) (watcher : nat) :
  iteration co w = (Blocked toWatch watcher, w') -> is_open watcher w' = true.
Proof.
  unfold iteration.
  destruct (os_ReadDir (Dir co) (fs w)) as [files [err|]]; [discriminate|].
  destruct (find_place co files 0 files ""); [|discriminate].
  destruct (WaitForFile s w) as [[wt|wt err] w1] eqn:Hw; [|discriminate].
  intros [= _ <- <-]. now apply WaitForFile_watchers in Hw as [? _].
Qed.

Lemma select_open (toWatch : string) (watcher : nat) (w : World) (o : occurrence) :
  is_open watcher w = true ->
  blocked_open (fst (select co toWatch watcher w o)) (snd (select co toWatch watcher w o)).
Proof.
  intros Hopen. destruct o as [c|r|]; cbn [select fst snd blocked_open]; auto.
  destruct (WaitForFile_turn toWatch r) as [|[e|] l]; cbn [fst snd blocked_open]; auto.
  destruct (iteration co (watcher_Close watcher w)) as [st w'] eqn:Hi.
  destruct st; cbn [fst snd blocked_open]; auto.
  now apply iteration_open in Hi.
Qed.

Lemma run_open (os : list occurrence) :
  forall (st : status) (w w' : World) (toWatch : string) (watcher : nat),
  blocked_open st w ->
  run co st w os = (Blocked toWatch watcher, w') ->
  is_open watcher w' = true.
Proof.
  induction os as [|o os IH]; intros st w w' toWatch watcher Hinv Hrun.
  - cbn in Hrun. injection Hrun as -> ->. exact Hinv.
  - cbn [run] in Hrun. destruct st as [t wt| | |]; try discriminate.
    pose proof (select_open t wt w o Hinv) as Hsel.
    destruct (select co t wt w o) as [st1 w1]. eauto.
Qed.

(** The watcher a blocked call waits on is open. *)
Lemma WaitInLine_open (w0 w1 : World) (os : list occurrence)
    (toWatch : string) (watcher : nat) :
  WaitInLine co w0 os = (Blocked toWatch watcher, w1) ->
  is_open watcher w1 = true.
Proof.
  unfold WaitInLine. destruct (iteration co w0) as [st w] eqn:Hi.
  apply run_open. destruct st; cbn; auto. now apply iteration_open in Hi.
Qed.

Lemma is_open_lt (watcher : nat) (w : World) :
  is_open watcher w = true -> (watcher < length (watchers w))%nat.
Proof.
  unfold is_open. destruct (watchers w !! watcher) eqn:Hl; [|discriminate].
  intros _. eapply lookup_lt_Some; eauto.
Qed.

(** Once closed, a watcher stays closed through the next iteration. *)
Lemma closed_after_iteration (watcher : nat) (w : World) :
  is_open watcher w = true ->
  is_open watcher (snd (iteration co (watcher_Close watcher w))) = false.
Proof.
  intros Hopen. apply is_open_lt in Hopen as Hlt.
  unfold is_open at 1. rewrite iteration_keeps.
  - unfold watcher_Close. cbn [watchers with_watchers].
    rewrite list_lookup_alter_eq. destruct (watchers w !! watcher); reflexivity.
  - unfold watcher_Close. cbn [watchers with_watchers]. now rewrite length_alter.
Qed.

End Wait.



(** After B has left, C waits on A: the rank is taken from the new
    listing. *)
Example C_waits_on_A_after_B_leaves :
  fst (WaitInLine (Sample.contender Sample.markerC) Sample.start Sample.B_leaves)
  = Blocked "/tmp/example/queuer-1700000000000000001-811" 1.
Proof. vm_compute. reflexivity. Qed.

Example C_waits_on_B_at_first :
  fst (WaitInLine (Sample.contender Sample.markerC) Sample.start [])
  = Blocked "/tmp/example/queuer-1700000000000000002-4410" 0.
Proof. vm_compute. reflexivity. Qed.

(** Scenario 2: B waits behind A and is first once A is removed. *)
Example B_holds_after_A_leaves :
  fst (WaitInLine (Sample.contender Sample.markerB) Sample.start
         [Outside (Removed Sample.markerA);
          Turn (FromEvents (Value (Sample.removal Sample.markerA)))])
  = Returned FirstInLine.
Proof. vm_compute. reflexivity. Qed.

(** Scenario 3: after C has cut in line, C is first. *)
Example C_holds_after_cutting :
  fst (WaitInLine (Sample.contender Sample.markerC)
         (Sample.world
            (fst (CutInLine (Sample.contender Sample.markerC)
                    (Sample.at_example Sample.queue)))) [])
  = Returned FirstInLine.
Proof. vm_compute. reflexivity. Qed.

(** A notification for another entry, or one that is no removal, leaves
    the call blocked. *)
Example C_ignores_other_notifications :
  fst (WaitInLine (Sample.contender Sample.markerC) Sample.start
         [Turn (FromEvents (Value (Sample.removal Sample.markerA)));
          Turn (FromEvents (Value {| Name := "/tmp/example/" +:+ Sample.markerB;
                                     Op := fsnotify_Chmod |}))])
  = Blocked "/tmp/example/queuer-1700000000000000002-4410" 0.
Proof. vm_compute. reflexivity. Qed.

Example A_is_first_in_line :
  fst (WaitInLine (Sample.contender Sample.markerA) Sample.start [])
  = Returned FirstInLine.
Proof. vm_compute. reflexivity. Qed.

(** C4, as the code has it: when no entry of the listing is the caller's
    own marker the iteration reports nothing: [toWatch] stays empty,
    [WaitForFile] is called on the empty path, and the call blocks in
    its select on that watcher (or is held in the send of [WaitForFile]
    when the watcher cannot be set up). *)
Theorem WaitInLine_marker_missing_watches_empty_path (co : Coordinator)
    (w0 w : World) (os : list occurrence) (d : gmap string Node) :
  loop_head co w0 os w ->
  mount (fs w) = Dir co -> tree (fs w) = Some d ->
  marker_missing co d ->
  WaitInLine co w0 os =
  match WaitForFile "" w with
  | (Watching watcher, w') => (Blocked "" watcher, w')
  | (Sending watcher err, w') => (Stuck watcher err, w')
  end.
Proof.
  intros Hhead Hm Ht Hmiss.
  rewrite (WaitInLine_at_head co w0 w os Hhead).
  rewrite (iteration_listing co w d Hm Ht).
  rewrite find_place_no_match; [reflexivity|].
  intros n Hn%elem_of_listing. auto.
Qed.

Lemma WaitInLine_marker_missing_watches_empty_path_witness :
  WaitInLine Sample.stranger Sample.start [] =
  match WaitForFile "" Sample.start with
  | (Watching watcher, w') => (Blocked "" watcher, w')
  | (Sending watcher err, w') => (Stuck watcher err, w')
  end.
Proof.
  apply (WaitInLine_marker_missing_watches_empty_path Sample.stranger
           Sample.start Sample.start [] Sample.queue).
  - apply head_first.
  - reflexivity.
  - reflexivity.
  - intros n Hn%elem_of_listing. vm_compute in Hn.
    repeat (apply elem_of_cons in Hn as [->|Hn]; [vm_compute; discriminate|]).
    inversion Hn.
Defined.

(** C4 fails as stated: a contender whose marker is not in the directory
    gets no error; the call goes on to watch the empty path. *)
Lemma WaitInLine_marker_missing_is_no_error :
  fst (WaitInLine Sample.stranger Sample.start []) = Blocked "" 0 /\
  (forall err, fst (WaitInLine Sample.stranger Sample.start []) <> Fatal err).
Proof.
  split; [vm_compute; reflexivity|]. intros err. vm_compute. discriminate.
Qed.

(** C5, as the code has it: a failure of the listing at the head of the
    loop, or an error received from [watchChan], ends in [log.Fatal]
    with that error: the process exits, nothing is returned. *)
Theorem WaitInLine_failure_is_fatal (co : Coordinator) (w0 w : World)
    (os : list occurrence) (err : error) :
  loop_failure co w0 os w err ->
  WaitInLine co w0 os = (Fatal err, w).
Proof.
  intros [os' w' files e Hhead Hread|os' toWatch watcher w1 r e Hb Hr].
  - rewrite (WaitInLine_at_head co w0 w' os' Hhead). unfold iteration.
    now rewrite Hread.
  - now apply WaitInLine_watch_error with (toWatch := toWatch) (watcher := watcher).
Qed.

Lemma WaitInLine_failure_is_fatal_witness :
  WaitInLine (Sample.contender Sample.markerC)
    (Sample.world {| mount := "/tmp/example"; tree := None |}) [] =
  (Fatal (PathError "open" "/tmp/example" ENOENT),
   Sample.world {| mount := "/tmp/example"; tree := None |}).
Proof.
  apply (WaitInLine_failure_is_fatal (Sample.contender Sample.markerC)).
  apply (listing_fails _ _ [] _ []).
  - apply head_first.
  - reflexivity.
Defined.

(** C5 fails as stated: with the directory gone the call does not hand
    an error back, the process is terminated. *)
Lemma WaitInLine_listing_failure_exits :
  fst (WaitInLine (Sample.contender Sample.markerC)
         (Sample.world {| mount := "/tmp/example"; tree := None |}) [])
  = Fatal (PathError "open" "/tmp/example" ENOENT).
Proof. vm_compute. reflexivity. Qed.

(** C8 against the code: of the two ways a call blocked in the [select]
    goes on in a live process, the receive of [nil] (predecessor
    removed) has the watcher of the cycle closed before the next
    listing, at line 128, and it stays closed; the cancellation returns
    at line 125, before that [Close], and leaves the watcher of the
    cycle open in the world the call returns in. *)
Theorem WaitInLine_cancel_skips_Close (co : Coordinator) (w0 w1 : World)
    (os : list occurrence) (toWatch : string) (watcher : nat) (r : ready) :
  WaitInLine co w0 os = (Blocked toWatch watcher, w1) ->
  hd_error (WaitForFile_turn toWatch r) = Some None ->
  (WaitInLine co w0 (os ++ [Turn r]) = iteration co (watcher_Close watcher w1) /\
   is_open watcher (snd (WaitInLine co w0 (os ++ [Turn r]))) = false) /\
  (WaitInLine co w0 (os ++ [Done]) = (Returned Cancelled, w1) /\
   is_open watcher w1 = true).
Proof.
  intros Hb Hr. split; split.
  - exact (WaitInLine_wakes co w0 w1 os r toWatch watcher Hb Hr).
  - rewrite (WaitInLine_wakes co w0 w1 os r toWatch watcher Hb Hr).
    apply closed_after_iteration.
    exact (WaitInLine_open co w0 w1 os toWatch watcher Hb).
  - now rewrite (WaitInLine_snoc co w0 w1 os Done toWatch watcher Hb).
  - exact (WaitInLine_open co w0 w1 os toWatch watcher Hb).
Qed.

Lemma WaitInLine_cancel_skips_Close_witness :
  (WaitInLine (Sample.contender Sample.markerC) Sample.start
     ([] ++ [Turn (FromEvents (Value (Sample.removal Sample.markerB)))]) =
     iteration (Sample.contender Sample.markerC)
       (watcher_Close 0
          (snd (WaitInLine (Sample.contender Sample.markerC) Sample.start []))) /\
   is_open 0
     (snd (WaitInLine (Sample.contender Sample.markerC) Sample.start
             ([] ++ [Turn (FromEvents (Value (Sample.removal Sample.markerB)))])))
   = false) /\
  (WaitInLine (Sample.contender Sample.markerC) Sample.start ([] ++ [Done]) =
     (Returned Cancelled,
      snd (WaitInLine (Sample.contender Sample.markerC) Sample.start [])) /\
   is_open 0 (snd (WaitInLine (Sample.contender Sample.markerC) Sample.start []))
   = true).
Proof.
  apply (WaitInLine_cancel_skips_Close (Sample.contender Sample.markerC)
           Sample.start
           (snd (WaitInLine (Sample.contender Sample.markerC) Sample.start []))
           [] "/tmp/example/queuer-1700000000000000002-4410" 0
           (FromEvents (Value (Sample.removal Sample.markerB)))).
  - vm_compute. reflexivity.
  - vm_compute. reflexivity.
Defined.



(** Scenario 4 of the tests: cancelled while waiting, the marker of the
    caller is still there. *)
Example cancelled_marker_still_there :
  let '(st, w) := WaitInLine (Sample.contender Sample.markerC) Sample.start [Done] in
  st = Returned Cancelled /\ fs w = Sample.at_example Sample.queue.
Proof. vm_compute. split; reflexivity. Qed.

End WaitInLineFacts.

Module StrconvFacts.
Import StrOrd StrOrdFacts GoPathFacts Strconv.
Local Open Scope N_scope.

Lemma digit_compare (a b : N) :
  a < b -> b < 10 -> Ascii.compare (digit a) (digit b) = Lt.
Proof.
  intros Hab Hb. unfold Ascii.compare, digit.
  rewrite !N_ascii_embedding by lia. apply N.compare_lt_iff. lia.
Qed.

Lemma fixed_width_app (k : nat) (n : N) (acc x : string) :
  fixed_width k n (acc +:+ x) = fixed_width k n acc +:+ x.
Proof.
  revert n acc. induction k as [|k IH]; intros n acc; [reflexivity|].
  cbn [fixed_width]. rewrite <- IH. reflexivity.
Qed.

Lemma fixed_width_length (k : nat) (n : N) (acc : string) :
  String.length (fixed_width k n acc) = (k + String.length acc)%nat.
Proof.
  revert n acc. induction k as [|k IH]; intros n acc; [reflexivity|].
  cbn [fixed_width]. rewrite IH. cbn [String.length]. lia.
Qed.

(** Numbers of the same width compare as their digits do; equal numbers
    leave the decision to what follows them. *)
Lemma fixed_width_compare (k : nat) :
  forall (a b : N) (x y : string),
  a < 10 ^ N.of_nat k -> b < 10 ^ N.of_nat k ->
  a < b \/ (a = b /\ String.compare x y = Lt) ->
  String.compare (fixed_width k a x) (fixed_width k b y) = Lt.
Proof.
  induction k as [|k IH]; intros a b x y Ha Hb Hab.
  - cbn [fixed_width]. cbn in Ha, Hb. destruct Hab as [Hab|[_ Hxy]]; [lia|exact Hxy].
  - cbn [fixed_width].
    rewrite Nat2N.inj_succ, N.pow_succ_r' in Ha, Hb.
    pose proof (N.div_mod a 10 ltac:(lia)) as Hda.
    pose proof (N.div_mod b 10 ltac:(lia)) as Hdb.
    pose proof (N.mod_upper_bound a 10 ltac:(lia)) as Hma.
    pose proof (N.mod_upper_bound b 10 ltac:(lia)) as Hmb.
    apply IH.
    + apply N.Div0.div_lt_upper_bound. lia.
    + apply N.Div0.div_lt_upper_bound. lia.
    + destruct Hab as [Hab|[-> Hxy]].
      * destruct (N.lt_ge_cases (a / 10) (b / 10)) as [Hq|Hq]; [now left|].
        right. assert (Hle : a / 10 <= b / 10) by (apply N.Div0.div_le_mono; lia).
        assert (Heq : a / 10 = b / 10) by lia. split; [exact Heq|].
        cbn [String.compare]. rewrite digit_compare; [reflexivity|lia|lia].
      * right. split; [reflexivity|]. cbn [String.compare].
        unfold Ascii.compare. now rewrite N.compare_refl.
Qed.

Lemma utoa_rec_fixed (fuel : nat) :
  forall (n : N) (acc : string),
  n < 10 ^ N.of_nat (S fuel) ->
  exists k : nat,
    n < 10 ^ N.of_nat k /\ (k = 1%nat \/ 10 ^ N.of_nat (k - 1) <= n) /\
    utoa_rec (S fuel) n acc = fixed_width k n acc.
Proof.
  induction fuel as [|fuel IH]; intros n acc Hn.
  - exists 1%nat. split; [exact Hn|]. split; [now left|].
    cbn [utoa_rec]. change (10 ^ N.of_nat 1) with 10 in Hn.
    apply N.ltb_lt in Hn. now rewrite Hn.
  - cbn [utoa_rec]. destruct (N.ltb_spec n 10) as [Hlt|Hge].
    + exists 1%nat. split; [cbn; lia|]. split; [now left|]. reflexivity.
    + rewrite Nat2N.inj_succ, N.pow_succ_r' in Hn.
      destruct (IH (n / 10) (String (digit (n mod 10)) acc)) as (k & Hk & Hlow & Heq).
      { apply N.Div0.div_lt_upper_bound. lia. }
      exists (S k). rewrite Nat2N.inj_succ, N.pow_succ_r'.
      pose proof (N.div_mod n 10 ltac:(lia)) as Hd.
      pose proof (N.mod_upper_bound n 10 ltac:(lia)) as Hm.
      split; [lia|]. split; [|exact Heq].
      right. replace (S k - 1)%nat with k by lia.
      destruct Hlow as [->|Hlow].
      * change (10 ^ N.of_nat 1) with 10. exact Hge.
      * destruct k as [|k].
        { change (10 ^ N.of_nat 0) with 1 in Hk.
          set (q := n / 10) in *. set (r := n mod 10) in *. clearbody q r. lia. }
        replace (S k - 1)%nat with k in Hlow by lia.
        rewrite Nat2N.inj_succ, N.pow_succ_r'.
        set (q := n / 10) in *. set (r := n mod 10) in *. clearbody q r. lia.
Qed.

Lemma pos_size_nat_bound (p : positive) : N.pos p < 2 ^ N.of_nat (Pos.size_nat p).
Proof.
  induction p as [p IH|p IH|]; cbn [Pos.size_nat];
    rewrite ?Nat2N.inj_succ, ?N.pow_succ_r'.
  - remember (2 ^ N.of_nat (Pos.size_nat p)) as e. lia.
  - remember (2 ^ N.of_nat (Pos.size_nat p)) as e. lia.
  - change (2 ^ N.of_nat 0) with 1. lia.
Qed.

Lemma size_nat_bound (n : N) : n < 10 ^ N.of_nat (S (N.size_nat n)).
Proof.
  assert (H2 : n < 2 ^ N.of_nat (N.size_nat n)).
  { destruct n as [|p]; [cbn; lia|]. apply pos_size_nat_bound. }
  assert (Hle : 2 ^ N.of_nat (N.size_nat n) <= 10 ^ N.of_nat (N.size_nat n)).
  { apply N.pow_le_mono_l. lia. }
  rewrite Nat2N.inj_succ, N.pow_succ_r'.
  remember (2 ^ N.of_nat (N.size_nat n)) as e2.
  remember (10 ^ N.of_nat (N.size_nat n)) as e10. lia.
Qed.

Lemma utoa_fixed (n : N) :
  exists k : nat,
    n < 10 ^ N.of_nat k /\ (k = 1%nat \/ 10 ^ N.of_nat (k - 1) <= n) /\
    utoa n = fixed_width k n "".
Proof. apply utoa_rec_fixed, size_nat_bound. Qed.

(** Of two numbers with as many digits, the smaller is printed as the
    smaller string, whatever follows the digits. *)
Lemma utoa_compare (a b : N) (x y : string) :
  a < b -> String.length (utoa a) = String.length (utoa b) ->
  String.compare (utoa a +:+ x) (utoa b +:+ y) = Lt.
Proof.
  intros Hab Hlen.
  destruct (utoa_fixed a) as (ka & Ha & _ & Ea).
  destruct (utoa_fixed b) as (kb & Hb & _ & Eb).
  rewrite Ea, Eb in *. rewrite !fixed_width_length in Hlen.
  assert (ka = kb) by lia. subst kb.
  rewrite <- !fixed_width_app. rewrite !append_nil_l.
  apply fixed_width_compare; auto.
Qed.

End StrconvFacts.

Module CreateWaitFileFacts.
Import StrOrd StrOrdFacts GoPathFacts Strconv StrconvFacts.

Lemma cut_last_star_snoc (s : string) : cut_last_star (s +:+ "*") = Some (s, "").
Proof.
  induction s as [|c s IH]; [reflexivity|].
  rewrite append_cons. cbn [cut_last_star]. now rewrite IH.
Qed.

Lemma namePattern_cut (now : Z) :
  prefixAndSuffix (namePattern now) = ("queuer-" +:+ itoa now +:+ "-", "").
Proof.
  unfold prefixAndSuffix, namePattern.
  change "-*" with ("-" +:+ "*").
  rewrite <- !append_assoc. now rewrite cut_last_star_snoc.
Qed.

Lemma wait_file_name_eq (now : Z) (random : N) :
  wait_file_name now random = "queuer-" +:+ (itoa now +:+ ("-" +:+ utoa random)).
Proof.
  unfold wait_file_name, temp_name. rewrite namePattern_cut.
  rewrite append_nil_r. now rewrite !append_assoc.
Qed.

Lemma wait_file_name_compare (t1 t2 : Z) (r1 r2 : N) :
  (0 <= t1 < t2)%Z ->
  String.length (itoa t1) = String.length (itoa t2) ->
  String.compare (wait_file_name t1 r1) (wait_file_name t2 r2) = Lt.
Proof.
  intros Ht Hlen. rewrite !wait_file_name_eq, compare_app.
  unfold itoa in *.
  destruct (Z.ltb_spec t1 0) as [|_]; [lia|].
  destruct (Z.ltb_spec t2 0) as [|_]; [lia|].
  apply utoa_compare; [lia|exact Hlen].
Qed.

Lemma utoa_length_19 (n : N) :
  (10 ^ 18 <= n < 10 ^ 19)%N -> String.length (utoa n) = 19%nat.
Proof.
  intros [Hlo Hhi]. destruct (utoa_fixed n) as (k & Hk & Hlow & ->).
  rewrite fixed_width_length. cbn [String.length]. rewrite Nat.add_0_r.
  destruct (Nat.lt_trichotomy k 19) as [Hlt|[->|Hgt]]; [|reflexivity|].
  - exfalso. assert (H : (10 ^ N.of_nat k <= 10 ^ 18)%N).
    { apply N.pow_le_mono_r; lia. }
    lia.
  - exfalso. destruct Hlow as [->|Hlow]; [lia|].
    assert (H : (10 ^ 19 <= 10 ^ N.of_nat (k - 1))%N).
    { apply N.pow_le_mono_r; lia. }
    lia.
Qed.

(** Every time from 2001-09-09 on that an [int64] of nanoseconds can
    hold has nineteen digits: among those the names sort as the times. *)
Lemma wait_file_names_sort_since_2001 (t1 t2 : Z) (r1 r2 : N) :
  (10 ^ 18 <= t1)%Z -> (t1 < t2)%Z -> (t2 < 2 ^ 63)%Z ->
  StrOrd.lt (wait_file_name t1 r1) (wait_file_name t2 r2).
Proof.
  intros H1 H12 H2. apply wait_file_name_compare; [lia|].
  unfold itoa.
  destruct (Z.ltb_spec t1 0) as [|_]; [lia|].
  destruct (Z.ltb_spec t2 0) as [|_]; [lia|].
  rewrite !utoa_length_19; [reflexivity| |].
  - change (10 ^ 18)%N with (Z.to_N (10 ^ 18)). change (10 ^ 19)%N with (Z.to_N (10 ^ 19)).
    split; [apply Z2N.inj_le; lia | apply Z2N.inj_lt; lia].
  - change (10 ^ 18)%N with (Z.to_N (10 ^ 18)). change (10 ^ 19)%N with (Z.to_N (10 ^ 19)).
    split; [apply Z2N.inj_le; lia | apply Z2N.inj_lt; lia].
Qed.

(** C6, as the code has it: the time is printed with [%d], as many
    digits as it has.  For two creation times [0 <= t1 < t2] printed
    with the same number of digits the marker of [t1] sorts strictly
    before the marker of [t2], whatever the random suffixes. *)
Theorem wait_file_names_sort_by_time (t1 t2 : Z) (r1 r2 : N) :
  (0 <= t1 < t2)%Z ->
  String.length (itoa t1) = String.length (itoa t2) ->
  StrOrd.lt (wait_file_name t1 r1) (wait_file_name t2 r2).
Proof.
  intros [Ht1 Ht12] Hlen. unfold StrOrd.lt.
  rewrite !wait_file_name_eq.
  (* the names share the prefix queuer- *)
  rewrite compare_app.
  (* neither time is negative: both are printed without a sign *)
  unfold itoa in Hlen |- *.
  destruct (Z.ltb_spec t1 0) as [Hneg|_]; [lia|].
  destruct (Z.ltb_spec t2 0) as [Hneg|_]; [lia|].
  (* digit strings of equal length compare as the numbers *)
  apply utoa_compare; [|exact Hlen].
  apply N2Z.inj_lt. rewrite !Z2N.id by lia. exact Ht12.
Qed.

Lemma wait_file_names_sort_by_time_witness :
  StrOrd.lt (wait_file_name 1700000000000000001 4410)
            (wait_file_name 1700000000000000002 811).
Proof.
  apply (wait_file_names_sort_by_time 1700000000000000001 1700000000000000002).
  - lia.
  - vm_compute. reflexivity.
Defined.

(** C6 fails as stated: the marker created at the first nanosecond with
    nineteen digits sorts before the marker created one nanosecond
    earlier. *)
Lemma wait_file_names_misordered :
  (999999999999999999 < 1000000000000000000)%Z /\
  wait_file_name 999999999999999999 7 = "queuer-999999999999999999-7" /\
  wait_file_name 1000000000000000000 7 = "queuer-1000000000000000000-7" /\
  StrOrd.lt (wait_file_name 1000000000000000000 7)
            (wait_file_name 999999999999999999 7).
Proof. repeat split; vm_compute; reflexivity. Qed.

(** *** The file [CreateWaitFile] creates *)

Lemma has_slash_app (a b : string) :
  GoPath.has_slash (a +:+ b) = GoPath.has_slash a || GoPath.has_slash b.
Proof.
  induction a as [|c a IH]; [reflexivity|].
  rewrite append_cons. cbn [GoPath.has_slash]. rewrite IH. now rewrite orb_assoc.
Qed.

Lemma digit_not_slash (d : N) : (d < 10)%N -> Ascii.eqb (digit d) GoPath.slash = false.
Proof.
  intros Hd.
  assert (H : (d = 0 \/ d = 1 \/ d = 2 \/ d = 3 \/ d = 4 \/ d = 5 \/ d = 6 \/
               d = 7 \/ d = 8 \/ d = 9)%N) by lia.
  repeat (destruct H as [->|H]; [reflexivity|]). now subst.
Qed.

Lemma has_slash_fixed_width (k : nat) (n : N) (acc : string) :
  GoPath.has_slash (fixed_width k n acc) = GoPath.has_slash acc.
Proof.
  revert n acc. induction k as [|k IH]; intros n acc; [reflexivity|].
  cbn [fixed_width]. rewrite IH. cbn [GoPath.has_slash].
  rewrite digit_not_slash; [reflexivity|]. apply N.mod_upper_bound. lia.
Qed.

Lemma has_slash_utoa (n : N) : GoPath.has_slash (utoa n) = false.
Proof.
  destruct (utoa_fixed n) as (k & _ & _ & ->). now rewrite has_slash_fixed_width.
Qed.

Lemma has_slash_namePattern (now : Z) : GoPath.has_slash (namePattern now) = false.
Proof.
  unfold namePattern, itoa. rewrite !has_slash_app.
  destruct (now <? 0)%Z; rewrite ?has_slash_app, has_slash_utoa; reflexivity.
Qed.

Lemma try_names_Ok (dir pattern : string) (d d' : gmap string Node)
    (draws : list N) (file : string) :
  try_names dir pattern d draws = Ok (file, d') ->
  exists r, In r draws /\ d !! temp_name pattern r = None /\
    file = joinPath dir (temp_name pattern r) /\
    d' = <[temp_name pattern r := {| content := ""; pinned := None |}]> d.
Proof.
  induction draws as [|r draws IH]; cbn [try_names].
  { destruct (prefixAndSuffix pattern). discriminate. }
  destruct (d !! temp_name pattern r) eqn:Hr.
  - intros H. destruct (IH H) as (r' & Hin & Hrest). exists r'. split; [now right|assumption].
  - intros [= <- <-]. exists r. split; [now left|]. auto.
Qed.

(** A successful [CreateWaitFile] has added one entry to the directory,
    named after the time and one of the draws, and has recorded its path
    in [FilePath]. *)
Lemma CreateWaitFile_Ok (co co' : Coordinator) (now : Z) (draws : list N)
    (f f' : FS) (file : string) :
  CreateWaitFile co now draws f = (Ok file, co', f') ->
  exists r d,
    In r draws /\
    (tree f = Some d \/ (tree f = None /\ d = ∅)) /\
    d !! wait_file_name now r = None /\
    tree f' = Some (<[wait_file_name now r := {| content := ""; pinned := None |}]> d) /\
    file = joinPath (if String.eqb (Dir co) "" then os_TempDir else Dir co)
                    (wait_file_name now r) /\
    co' = {| Dir := Dir co; FilePath := file |}.
Proof.
  unfold CreateWaitFile, os_MkdirAll.
  destruct (String.eqb_spec (Dir co) (mount f)) as [Hm|Hm]; [|discriminate].
  set (f1 := match tree f with
             | Some _ => f
             | None => {| mount := mount f; tree := Some ∅ |}
             end).
  assert (Hf1 : exists d, tree f1 = Some d /\ mount f1 = mount f /\
                          (tree f = Some d \/ (tree f = None /\ d = ∅))).
  { subst f1. destruct (tree f) as [d|] eqn:Ht; [exists d|exists ∅]; auto. }
  destruct Hf1 as (d & Ht1 & Hm1 & Hd).
  replace (match tree f with
           | Some _ => (f, None)
           | None => ({| mount := mount f; tree := Some ∅ |}, None)
           end) with (f1, @None error) by (subst f1; now destruct (tree f)).
  unfold ioutil_TempFile. rewrite has_slash_namePattern.
  destruct (String.eqb _ (mount f1)); [|discriminate].
  rewrite Ht1.
  destruct (try_names _ _ d draws) as [[file' d']|e] eqn:Htry; [|discriminate].
  intros [= <- <- <-].
  apply try_names_Ok in Htry as (r & Hin & Hnone & -> & ->).
  exists r, d. rewrite Hm1. auto 10.
Qed.

End CreateWaitFileFacts.

Module WaitForFileFacts.

Lemma WaitForFile_turn_event (filePath : string) (event : Event) :
  WaitForFile_turn filePath (FromEvents (Value event)) =
  if is_removal_of filePath event then [None] else [].
Proof.
  unfold WaitForFile_turn, is_removal_of. cbn [comma_ok].
  destruct (String.eqb (Name event) filePath); cbn [negb andb]; [|reflexivity].
  destruct (Z.land (Op event) fsnotify_Remove =? fsnotify_Remove); reflexivity.
Qed.

(** C3, as the code has it: over any run of notifications on [Events]
    the goroutine sends one [nil] for each notification that carries the
    watched path and the Remove bit, and nothing for a notification of
    another path or another operation. *)
Theorem WaitForFile_sends_per_removal (filePath : string) (events : list Event) :
  WaitForFile_sends filePath (map (fun e => FromEvents (Value e)) events) =
  map (fun _ => None) (List.filter (is_removal_of filePath) events).
Proof.
  unfold WaitForFile_sends.
  induction events as [|e events IH]; [reflexivity|].
  cbn [map flat_map List.filter]. rewrite IH, WaitForFile_turn_event.
  destruct (is_removal_of filePath e); reflexivity.
Qed.

(** C3 fails as stated: two removals of the watched path (the file is
    created again in between) are two sends on the channel. *)
Lemma WaitForFile_sends_twice :
  WaitForFile_sends "/tmp/example/queuer-1700000000000000001-811"
    [FromEvents (Value (Sample.removal Sample.markerA));
     FromEvents (Value {| Name := "/tmp/example/queuer-1700000000000000001-811";
                          Op := fsnotify_Create |});
     FromEvents (Value (Sample.removal Sample.markerA))]
  = [None; None].
Proof. vm_compute. reflexivity. Qed.

(** What the goroutine does with the [Errors] channel: an error that
    arrives is dropped, and the closed channel is reported as [nil]. *)
Example Errors_value_is_dropped (filePath : string) (err : error) :
  WaitForFile_turn filePath (FromErrors (Value err)) = [].
Proof. reflexivity. Qed.

Example Errors_closed_sends_nil (filePath : string) :
  WaitForFile_turn filePath (FromErrors Closed) = [None].
Proof. reflexivity. Qed.

(** The closed [Events] channel yields the zero event, whose name is
    empty: it passes the filter only when the watched path is empty. *)
Example Events_closed_is_filtered :
  WaitForFile_turn "/tmp/example/queuer-1700000000000000001-811" (FromEvents Closed) = [].
Proof. reflexivity. Qed.

Example Events_closed_on_empty_path :
  WaitForFile_turn "" (FromEvents Closed)
  = [Some (errors_New "fsnotify channel closed abruptly")].
Proof. reflexivity. Qed.

(** A failed set-up leaves [WaitForFile] in its send. *)
Example WaitForFile_NewWatcher_fails (filePath : string) (w : World) (err : error) :
  NewWatcher_fault w = Some err ->
  WaitForFile filePath w = (Sending None err, w).
Proof. intros H. unfold WaitForFile, fsnotify_NewWatcher. now rewrite H. Qed.

Example WaitForFile_watches_the_parent_on_linux :
  watchers (snd (WaitForFile "/tmp/example/queuer-1700000000000000001-811" Sample.start))
  = [{| added := ["/tmp/example"]; closed := false |}].
Proof. vm_compute. reflexivity. Qed.

End WaitForFileFacts.

Module DirMoreFacts.
Import StrOrd StrOrdFacts GoPathFacts DirFacts.

(** Two sorted listings with the same entries are the same list. *)
Lemma sorted_listing_unique (l k : list string) :
  StronglySorted String.le l -> StronglySorted String.le k ->
  NoDup l -> NoDup k -> (forall x, x ∈ l <-> x ∈ k) -> l = k.
Proof.
  intros Hl Hk Hndl Hndk Heq.
  apply (StronglySorted_unique String.le); auto.
  now apply NoDup_Permutation.
Qed.

Lemma listing_unlink_all (d : gmap string Node) (pre rest : list string) :
  listing d = pre ++ rest -> listing (unlink_all pre d) = rest.
Proof.
  intros Hl. pose proof (NoDup_listing d) as Hnd.
  pose proof (listing_sorted d) as Hs. rewrite Hl in Hnd, Hs.
  apply NoDup_app in Hnd as (_ & Hdisj & Hndr).
  apply sorted_listing_unique.
  - apply listing_sorted.
  - now apply StronglySorted_app_1_r in Hs.
  - apply NoDup_listing.
  - exact Hndr.
  - intros x. rewrite elem_of_listing, unlink_all_lookup.
    destruct (decide (x ∈ pre)) as [Hin|Hnin].
    + split; [intros [? ?]; discriminate|]. intros Hr. now destruct (Hdisj x Hin).
    + rewrite <- elem_of_listing, Hl, elem_of_app. tauto.
Qed.

Lemma listing_delete (d : gmap string Node) (pre post : list string) (n : string) :
  listing d = pre ++ n :: post -> listing (delete n d) = pre ++ post.
Proof.
  intros Hl. pose proof (NoDup_listing d) as Hnd.
  pose proof (listing_sorted d) as Hs. rewrite Hl in Hnd, Hs.
  apply sorted_listing_unique.
  - apply listing_sorted.
  - apply StronglySorted_app in Hs as (Hall & Hpre & Hpost).
    apply StronglySorted_cons in Hpost as [_ Hpost].
    apply StronglySorted_app. split; [|auto].
    intros x1 x2 H1 H2. apply Hall; [assumption|now right].
  - apply NoDup_listing.
  - apply NoDup_app in Hnd as (Hp & Hdisj & Hq%NoDup_cons).
    apply NoDup_app. split; [assumption|]. split; [|tauto].
    intros x Hx Hx'. apply (Hdisj x Hx). now right.
  - intros x. rewrite elem_of_listing.
    apply NoDup_app in Hnd as (Hp & Hdisj & [Hnq Hq]%NoDup_cons).
    destruct (decide (x = n)) as [->|Hne].
    + rewrite lookup_delete_eq. split; [intros [? ?]; discriminate|].
      intros [Hx|Hx]%elem_of_app; [|contradiction].
      destruct (Hdisj n Hx). left.
    + rewrite lookup_delete_ne by auto.
      rewrite <- elem_of_listing, Hl, !elem_of_app, elem_of_cons. tauto.
Qed.

Lemma listing_singleton (n : string) (node : Node) : listing {[ n := node ]} = [n].
Proof. unfold listing. now rewrite map_to_list_singleton. Qed.

End DirMoreFacts.

Module CutInLineMore.
Import StrOrd StrOrdFacts GoPathFacts DirFacts DirMoreFacts CutInLineFacts.

Lemma os_Remove_shrinks (name : string) (f : FS) :
  mount (fst (os_Remove name f)) = mount f /\
  match tree f with
  | None => tree (fst (os_Remove name f)) = None
  | Some d => exists d', tree (fst (os_Remove name f)) = Some d' /\ d' ⊆ d
  end.
Proof.
  unfold os_Remove. destruct (tree f) as [d|] eqn:Ht; cbn [fst]; [|auto].
  destruct (List.find _ (listing d)) as [n|]; cbn [fst]; [|rewrite Ht; eauto].
  destruct (d !! n) as [node|]; cbn [fst]; [|rewrite Ht; eauto].
  destruct (pinned node); cbn [fst mount tree]; [rewrite Ht; eauto|].
  split; [reflexivity|]. exists (delete n d). split; [reflexivity|].
  apply delete_subseteq.
Qed.

Lemma CutInLine_loop_shrinks (co : Coordinator) (files : list string) :
  forall f : FS,
  mount (fst (CutInLine_loop co files f)) = mount f /\
  match tree f with
  | None => tree (fst (CutInLine_loop co files f)) = None
  | Some d => exists d', tree (fst (CutInLine_loop co files f)) = Some d' /\ d' ⊆ d
  end.
Proof.
  induction files as [|name files IH]; intros f; cbn [CutInLine_loop].
  - cbn [fst]. split; [reflexivity|]. destruct (tree f); eauto.
  - destruct (String.eqb _ (FilePath co)).
    { cbn [fst]. split; [reflexivity|]. destruct (tree f); eauto. }
    pose proof (os_Remove_shrinks (GoPath.Join [Dir co; name]) f) as [Hm Ht].
    destruct (os_Remove (GoPath.Join [Dir co; name]) f) as [f1 [err|]];
      cbn [fst] in *; [auto|].
    destruct (IH f1) as [Hm1 Ht1]. split; [congruence|].
    destruct (tree f) as [d|].
    + destruct Ht as (d1 & Hd1 & Hsub). rewrite Hd1 in Ht1.
      destruct Ht1 as (d2 & Hd2 & Hsub2). exists d2. split; [assumption|].
      now transitivity d1.
    + now rewrite Ht in Ht1.
Qed.

(** X1: whatever it returns, [CutInLine] only unlinks: the directory is
    where it was, no entry is added and no entry that is left has
    changed; a directory that does not exist is not created. *)
Theorem CutInLine_only_unlinks (co : Coordinator) (f : FS) :
  mount (fst (CutInLine co f)) = mount f /\
  match tree f with
  | None => tree (fst (CutInLine co f)) = None
  | Some d => exists d', tree (fst (CutInLine co f)) = Some d' /\ d' ⊆ d
  end.
Proof.
  unfold CutInLine.
  destruct (os_ReadDir (Dir co) f) as [files [err|]].
  - cbn [fst]. split; [reflexivity|]. destruct (tree f); eauto.
  - apply CutInLine_loop_shrinks.
Qed.

(** What a [CutInLine] that returns [nil] leaves behind, with the own
    marker in the directory: the listing from the marker on. *)
Lemma CutInLine_success_listing (co : Coordinator) (f f' : FS)
    (d : gmap string Node) (own : string) :
  mount f = Dir co -> tree f = Some d -> well_named d = true ->
  own_marker co d own ->
  CutInLine co f = (f', None) ->
  exists pre post,
    listing d = pre ++ own :: post /\
    f' = {| mount := Dir co; tree := Some (unlink_all pre d) |} /\
    listing (unlink_all pre d) = own :: post /\
    well_named (unlink_all pre d) = true.
Proof.
  intros Hm Ht Hwn [Hown Hj] Hcut.
  assert (Hin : own ∈ listing d) by now apply elem_of_listing.
  apply list_elem_of_split in Hin as (pre & post & Hl).
  destruct (listing_split d pre post own Hl) as [Hpre Hpost].
  pose proof (NoDup_listing d) as Hnd. rewrite Hl in Hnd.
  apply NoDup_app in Hnd as (Hndpre & _ & _).
  assert (Hdom : forall n, n ∈ pre -> is_Some (d !! n)).
  { intros n Hn. apply elem_of_listing. rewrite Hl. apply elem_of_app. now left. }
  assert (Hnot : forall n, n ∈ pre -> GoPath.Join [Dir co; n] <> FilePath co).
  { intros n Hn Heq. rewrite <- Hj in Heq.
    pose proof Hwn as Hwn'. rewrite well_named_spec in Hwn'.
    apply Join_entry_inj in Heq; auto. subst n.
    exact (lt_irrefl own (Hpre own Hn)). }
  rewrite (CutInLine_listing co f d Hm Ht), Hl in Hcut.
  destruct (first_pinned d pre Hdom)
    as [Hall|(a & x & b & node & errno & -> & Ha & Hx & Hp)].
  - rewrite CutInLine_stops_at_marker in Hcut; auto.
    injection Hcut as <-. exists pre, post. split; [assumption|].
    split; [reflexivity|]. split; [now apply listing_unlink_all|].
    apply well_named_spec. intros n [v Hn]. rewrite unlink_all_lookup in Hn.
    destruct (decide (n ∈ pre)); [discriminate|].
    rewrite well_named_spec in Hwn. eauto.
  - rewrite <- app_assoc in Hcut. cbn [app] in Hcut.
    rewrite (CutInLine_stops_at_failure co d a x (b ++ own :: post) node errno)
      in Hcut; auto.
    + discriminate.
    + replace (a ++ x :: b ++ own :: post) with (listing d)
        by (rewrite Hl, <- app_assoc; reflexivity).
      apply NoDup_listing.
    + intros n Hn. split; [|auto]. apply Hnot. apply elem_of_app. now left.
    + apply Hnot. apply elem_of_app. right. left.
Qed.

(** X2: [CutInLine] is idempotent: after a call that returned [nil] with
    the own marker in the directory, a second call returns [nil] and
    changes nothing. *)
Theorem CutInLine_twice (co : Coordinator) (f f' : FS)
    (d : gmap string Node) (own : string) :
  mount f = Dir co -> tree f = Some d -> well_named d = true ->
  own_marker co d own ->
  CutInLine co f = (f', None) ->
  CutInLine co f' = (f', None).
Proof.
  intros Hm Ht Hwn Hown Hcut.
  destruct (CutInLine_success_listing co f f' d own Hm Ht Hwn Hown Hcut)
    as (pre & post & Hl & -> & Hl' & Hwn').
  rewrite (CutInLine_listing co _ (unlink_all pre d)) by reflexivity.
  rewrite Hl'. cbn [CutInLine_loop].
  destruct Hown as [_ Hj]. apply String.eqb_eq in Hj. now rewrite Hj.
Qed.

Lemma CutInLine_twice_witness :
  CutInLine (Sample.contender Sample.markerC)
    (Sample.at_example (delete Sample.markerA (delete Sample.markerB Sample.queue)))
  = (Sample.at_example (delete Sample.markerA (delete Sample.markerB Sample.queue)),
     None).
Proof.
  apply (CutInLine_twice (Sample.contender Sample.markerC)
           (Sample.at_example Sample.queue) _ Sample.queue Sample.markerC).
  - reflexivity.
  - reflexivity.
  - vm_compute. reflexivity.
  - split; [exists Sample.plain|]; vm_compute; reflexivity.
  - vm_compute. reflexivity.
Defined.



End CutInLineMore.

Module WaitInLineMore.
Import StrOrd StrOrdFacts GoPathFacts DirFacts DirMoreFacts WaitInLineFacts CutInLineMore.

(** *** Returning first in line *)

Lemma find_place_Some_later (co : Coordinator) (files rest : list string)
    (i : nat) (toWatch : string) :
  find_place co files (S i) rest toWatch <> None.
Proof.
  revert i toWatch. induction rest as [|f rest IH]; intros i toWatch; [discriminate|].
  cbn [find_place]. destruct (negb _); [apply IH|].
  cbn [Nat.eqb]. apply IH.
Qed.

Lemma find_place_None (co : Coordinator) (files rest : list string) (toWatch : string) :
  find_place co files 0 rest toWatch = None ->
  exists first rest', rest = first :: rest' /\
    GoPath.Join [Dir co; first] = FilePath co.
Proof.
  destruct rest as [|f rest]; [discriminate|]. cbn [find_place].
  destruct (String.eqb_spec (GoPath.Join [Dir co; f]) (FilePath co)) as [Heq|Hne];
    cbn [negb].
  - intros _. eauto.
  - intros H. now apply find_place_Some_later in H.
Qed.

Lemma iteration_first (co : Coordinator) (w w' : World) :
  iteration co w = (Returned FirstInLine, w') ->
  w' = w /\ mount (fs w) = Dir co /\
  exists d first rest,
    tree (fs w) = Some d /\ listing d = first :: rest /\
    GoPath.Join [Dir co; first] = FilePath co.
Proof.
  unfold iteration, os_ReadDir.
  destruct (String.eqb_spec (Dir co) (mount (fs w))) as [Hm|_]; [|discriminate].
  destruct (tree (fs w)) as [d|]; [|discriminate].
  destruct (find_place co (listing d) 0 (listing d) "") as [toWatch|] eqn:Hf.
  - destruct (WaitForFile toWatch w) as [[wt|wt err] w1]; discriminate.
  - intros [= <-]. apply find_place_None in Hf as (first & rest & Hl & Hj).
    split; [reflexivity|]. split; [auto|]. exists d, first, rest. auto.
Qed.

Lemma select_first (co : Coordinator) (toWatch : string) (watcher : nat)
    (w w' : World) (o : occurrence) :
  select co toWatch watcher w o = (Returned FirstInLine, w') ->
  iteration co w' = (Returned FirstInLine, w').
Proof.
  destruct o as [c|r|]; cbn [select]; try discriminate.
  destruct (WaitForFile_turn toWatch r) as [|[e|] l]; try discriminate.
  intros H. pose proof (iteration_first co _ _ H) as [Hw _]. now rewrite Hw in H |- *.
Qed.

Lemma run_first (co : Coordinator) (os : list occurrence) :
  forall (st : status) (w w' : World),
  (st = Returned FirstInLine -> iteration co w = (Returned FirstInLine, w)) ->
  run co st w os = (Returned FirstInLine, w') ->
  iteration co w' = (Returned FirstInLine, w').
Proof.
  induction os as [|o os IH]; intros st w w' Hst Hrun.
  - cbn in Hrun. injection Hrun as -> ->. auto.
  - cbn [run] in Hrun. destruct st as [t wt|how|err|wt err].
    + destruct (select co t wt w o) as [st1 w1] eqn:Hsel.
      apply (IH st1 w1 w'); [|assumption]. intros ->.
      now apply select_first in Hsel.
    + injection Hrun as -> ->. auto.
    + discriminate.
    + discriminate.
Qed.

(** A call that has returned first in line saw its marker at the head of
    the listing of the directory it returned in. *)
Lemma WaitInLine_first_head (co : Coordinator) (w0 w : World) (os : list occurrence) :
  WaitInLine co w0 os = (Returned FirstInLine, w) ->
  mount (fs w) = Dir co /\
  exists d first rest,
    tree (fs w) = Some d /\ listing d = first :: rest /\
    GoPath.Join [Dir co; first] = FilePath co.
Proof.
  unfold WaitInLine. destruct (iteration co w0) as [st w1] eqn:Hi. intros Hrun.
  assert (H : iteration co w = (Returned FirstInLine, w)).
  { apply (run_first co os st w1 w); [|assumption]. intros ->.
    pose proof (iteration_first co _ _ Hi) as [Hw _]. now rewrite Hw in Hi |- *. }
  now apply iteration_first in H as (_ & Hm & Hd).
Qed.

(** X4: [WaitInLine] returns first in line only in a directory whose
    listing starts with the caller's marker; that entry is the smallest
    name present. *)
Theorem WaitInLine_first_is_smallest (co : Coordinator) (w0 w : World)
    (os : list occurrence) :
  WaitInLine co w0 os = (Returned FirstInLine, w) ->
  exists d first,
    mount (fs w) = Dir co /\ tree (fs w) = Some d /\
    is_Some (d !! first) /\
    GoPath.Join [Dir co; first] = FilePath co /\
    forall n, is_Some (d !! n) -> String.le first n.
Proof.
  intros H. apply WaitInLine_first_head in H as (Hm & d & first & rest & Ht & Hl & Hj).
  exists d, first. split; [assumption|]. split; [assumption|].
  split; [apply elem_of_listing; rewrite Hl; left|]. split; [assumption|].
  intros n Hn%elem_of_listing. rewrite Hl in Hn.
  pose proof (listing_sorted d) as Hs. rewrite Hl in Hs.
  apply StronglySorted_cons in Hs as [Hall _].
  apply elem_of_cons in Hn as [->|Hn]; [reflexivity|].
  rewrite Forall_forall in Hall. auto.
Qed.

Lemma WaitInLine_first_is_smallest_witness :
  exists d first,
    mount (fs Sample.start) = "/tmp/example" /\ tree (fs Sample.start) = Some d /\
    is_Some (d !! first) /\
    GoPath.Join ["/tmp/example"; first] = "/tmp/example/" +:+ Sample.markerA /\
    forall n, is_Some (d !! n) -> String.le first n.
Proof.
  apply (WaitInLine_first_is_smallest (Sample.contender Sample.markerA)
           Sample.start Sample.start []).
  vm_compute. reflexivity.
Defined.





(** *** What leaves a blocked call blocked *)

Lemma bystander_select (co : Coordinator) (toWatch : string) (watcher : nat)
    (w : World) (o : occurrence) :
  bystander toWatch o = true ->
  select co toWatch watcher w o =
  (Blocked toWatch watcher,
   with_fs (match o with Outside c => change c (fs w) | _ => fs w end) w).
Proof.
  assert (Hid : with_fs (fs w) w = w) by now destruct w.
  destruct o as [c|[[e|]|[e|]]|]; cbn [bystander]; try discriminate.
  - reflexivity.
  - intros He%negb_true_iff. cbn [select].
    rewrite WaitForFileFacts.WaitForFile_turn_event, He. now rewrite Hid.
  - intros _. cbn [select]. now rewrite Hid.
Qed.

(** X6: no herd: directory changes of other processes, notifications
    that are not the removal of the watched entry and errors of the
    watcher all leave a blocked call blocked on the same entry with the
    same watcher; it does not list the directory again and opens or
    closes no watcher. *)
Theorem WaitInLine_ignores_bystanders (co : Coordinator) (w0 w1 : World)
    (os more : list occurrence) (toWatch : string) (watcher : nat) :
  WaitInLine co w0 os = (Blocked toWatch watcher, w1) ->
  forallb (bystander toWatch) more = true ->
  WaitInLine co w0 (os ++ more) =
  (Blocked toWatch watcher, with_fs (outside_changes more (fs w1)) w1).
Proof.
  revert os w1. induction more as [|o more IH]; intros os w1 Hb Hall.
  - rewrite app_nil_r, Hb. cbn. now destruct w1.
  - cbn [forallb] in Hall. apply andb_true_iff in Hall as [Ho Hall].
    replace (os ++ o :: more) with ((os ++ [o]) ++ more)
      by (rewrite <- app_assoc; reflexivity).
    assert (Hstep : WaitInLine co w0 (os ++ [o]) =
                    (Blocked toWatch watcher,
                     with_fs (match o with Outside c => change c (fs w1) | _ => fs w1 end) w1)).
    { rewrite (WaitInLine_snoc co w0 w1 os o toWatch watcher Hb).
      now apply bystander_select. }
    rewrite (IH _ _ Hstep Hall). now destruct o as [c|r|].
Qed.

Lemma WaitInLine_ignores_bystanders_witness :
  WaitInLine (Sample.contender Sample.markerC) Sample.start
    ([] ++ [Outside (Removed Sample.markerA);
            Turn (FromEvents (Value (Sample.removal Sample.markerA)));
            Turn (FromErrors (Value (errors_New "overflow")))]) =
  (Blocked "/tmp/example/queuer-1700000000000000002-4410" 0,
   with_fs
     (outside_changes
        [Outside (Removed Sample.markerA);
         Turn (FromEvents (Value (Sample.removal Sample.markerA)));
         Turn (FromErrors (Value (errors_New "overflow")))]
        (fs (snd (WaitInLine (Sample.contender Sample.markerC) Sample.start []))))
     (snd (WaitInLine (Sample.contender Sample.markerC) Sample.start []))).
Proof.
  apply (WaitInLine_ignores_bystanders (Sample.contender Sample.markerC)
           Sample.start _ []).
  - vm_compute. reflexivity.
  - vm_compute. reflexivity.
Defined.

(** *** The directory under any run *)

Lemma run_fs_prefix (co : Coordinator) (os : list occurrence) :
  forall (st st' : status) (w w' : World),
  run co st w os = (st', w') ->
  exists taken rest, os = taken ++ rest /\ fs w' = outside_changes taken (fs w).
Proof.
  induction os as [|o os IH]; intros st st' w w' Hrun.
  - cbn in Hrun. injection Hrun as _ <-. exists [], []. auto.
  - cbn [run] in Hrun. destruct st as [t wt|how|err|wt err];
      try (injection Hrun as _ <-; exists [], (o :: os); auto).
    pose proof (select_fs co t wt w o) as Hsel.
    destruct (select co t wt w o) as [st1 w1]. cbn [snd] in Hsel.
    destruct (IH _ _ _ _ Hrun) as (taken & rest & -> & Hfs).
    exists (o :: taken), rest. split; [reflexivity|].
    unfold outside_changes in *. cbn [fold_left]. rewrite Hfs, Hsel.
    now destruct o.
Qed.

(** X7: however a call of [WaitInLine] ends or stands, the directory is
    the one it started in with changes of other processes applied:
    [WaitInLine] itself creates and removes nothing. *)
Theorem WaitInLine_never_writes (co : Coordinator) (w0 : World)
    (os : list occurrence) :
  exists taken rest,
    os = taken ++ rest /\
    fs (snd (WaitInLine co w0 os)) = outside_changes taken (fs w0).
Proof.
  unfold WaitInLine. pose proof (iteration_fs co w0) as H0.
  destruct (iteration co w0) as [st w]. cbn [snd] in H0.
  destruct (run co st w os) as [st' w'] eqn:Hrun.
  destruct (run_fs_prefix co os st st' w w' Hrun) as (taken & rest & Hos & Hfs).
  exists taken, rest. split; [assumption|]. cbn [snd]. now rewrite Hfs, H0.
Qed.

(** *** The watchers of a call *)

Lemma is_open_beyond (k : nat) (w : World) :
  (length (watchers w) <= k)%nat -> is_open k w = false.
Proof. intros H. unfold is_open. now rewrite lookup_ge_None_2. Qed.

Lemma is_open_same (k : nat) (w w' : World) :
  watchers w' !! k = watchers w !! k -> is_open k w' = is_open k w.
Proof. unfold is_open. now intros ->. Qed.

Lemma WaitForFile_length (filePath : string) (w : World) :
  match fst (WaitForFile filePath w) with
  | Watching wt | Sending (Some wt) _ =>
      wt = length (watchers w) /\
      length (watchers (snd (WaitForFile filePath w))) = S (length (watchers w))
  | Sending None _ => snd (WaitForFile filePath w) = w
  end.
Proof.
  unfold WaitForFile, fsnotify_NewWatcher, watcher_Add.
  destruct (NewWatcher_fault w); [reflexivity|]. cbn [Add_fault with_watchers].
  destruct (Add_fault w); cbn [fst snd watchers with_watchers];
    rewrite ?length_alter, length_app; cbn [length]; split; auto; lia.
Qed.

Lemma WaitForFile_kept (n0 : nat) (filePath : string) (w0 w : World) :
  same_below n0 w0 w -> closed_but n0 None w ->
  same_below n0 w0 (snd (WaitForFile filePath w)) /\
  match fst (WaitForFile filePath w) with
  | Watching wt | Sending (Some wt) _ =>
      (n0 <= wt)%nat /\ closed_but n0 (Some wt) (snd (WaitForFile filePath w))
  | Sending None _ => closed_but n0 None (snd (WaitForFile filePath w))
  end.
Proof.
  intros [Hlen Hlow] Hclosed.
  pose proof (WaitForFile_length filePath w) as Hshape.
  pose proof (WaitForFile_keeps filePath w) as Hkeep.
  destruct (WaitForFile filePath w) as [[wt|[wt|] err] w']; cbn [fst snd] in *.
  - destruct Hshape as [-> Hl]. split.
    + split; [lia|]. intros k Hk. rewrite Hkeep by lia. auto.
    + split; [assumption|]. intros k Hk Hne.
      destruct (Nat.lt_ge_cases k (length (watchers w))) as [Hlt|Hge].
      * rewrite (is_open_same k w w') by auto. now apply Hclosed.
      * apply is_open_beyond. assert (k <> length (watchers w)) by congruence. lia.
  - destruct Hshape as [-> Hl]. split.
    + split; [lia|]. intros k Hk. rewrite Hkeep by lia. auto.
    + split; [assumption|]. intros k Hk Hne.
      destruct (Nat.lt_ge_cases k (length (watchers w))) as [Hlt|Hge].
      * rewrite (is_open_same k w w') by auto. now apply Hclosed.
      * apply is_open_beyond. assert (k <> length (watchers w)) by congruence. lia.
  - subst w'. split; [split; assumption|assumption].
Qed.

Lemma iteration_kept (co : Coordinator) (n0 : nat) (w0 w : World) :
  same_below n0 w0 w -> closed_but n0 None w ->
  watchers_kept n0 w0 (fst (iteration co w)) (snd (iteration co w)).
Proof.
  intros Hsame Hclosed. unfold iteration.
  assert (Hstay : forall st, (forall t wt, st <> Blocked t wt) ->
                             watchers_kept n0 w0 st w).
  { intros st Hst. split; [assumption|]. exists None. split; [assumption|].
    split; [|auto]. intros t wt ->. now destruct (Hst t wt). }
  destruct (os_ReadDir (Dir co) (fs w)) as [files [err|]];
    [apply Hstay; discriminate|].
  destruct (find_place co files 0 files "") as [toWatch|];
    [|apply Hstay; discriminate].
  pose proof (WaitForFile_kept n0 toWatch w0 w Hsame Hclosed) as [Hs Hc].
  destruct (WaitForFile toWatch w) as [[wt|[wt|] err] w']; cbn [fst snd] in *.
  - destruct Hc as [Hge Hc]. split; [assumption|]. exists (Some wt).
    split; [assumption|]. split; [|discriminate]. now intros t wt' [= _ <-].
  - destruct Hc as [Hge Hc]. split; [assumption|]. exists (Some wt).
    split; [assumption|]. split; discriminate.
  - split; [assumption|]. exists None. split; [assumption|]. split; [discriminate|auto].
Qed.

Lemma watcher_Close_kept (n0 watcher : nat) (w0 w : World) :
  (n0 <= watcher)%nat ->
  same_below n0 w0 w -> closed_but n0 (Some watcher) w ->
  same_below n0 w0 (watcher_Close watcher w) /\
  closed_but n0 None (watcher_Close watcher w).
Proof.
  intros Hge [Hlen Hlow] Hclosed. unfold watcher_Close. split.
  - split; cbn [watchers with_watchers]; [now rewrite length_alter|].
    intros k Hk. rewrite list_lookup_alter_ne by lia. auto.
  - intros k Hk _. destruct (decide (k = watcher)) as [->|Hne].
    + unfold is_open. cbn [watchers with_watchers]. rewrite list_lookup_alter_eq.
      destruct (watchers w !! watcher); reflexivity.
    + unfold is_open. cbn [watchers with_watchers].
      rewrite list_lookup_alter_ne by auto.
      apply (Hclosed k Hk). congruence.
Qed.

Lemma select_kept (co : Coordinator) (n0 : nat) (w0 w : World)
    (toWatch : string) (watcher : nat) (o : occurrence) :
  watchers_kept n0 w0 (Blocked toWatch watcher) w ->
  watchers_kept n0 w0 (fst (select co toWatch watcher w o))
                      (snd (select co toWatch watcher w o)).
Proof.
  intros (Hsame & cur & Hclosed & Hcur & _).
  destruct (Hcur toWatch watcher eq_refl) as [-> Hge].
  assert (Hend : forall st, (forall t wt, st <> Blocked t wt) ->
                            st <> Returned FirstInLine ->
                            watchers_kept n0 w0 st w).
  { intros st Hst Hf. split; [assumption|]. exists (Some watcher).
    split; [assumption|]. split; [|contradiction].
    intros t wt ->. now destruct (Hst t wt). }
  assert (Hsame' : watchers_kept n0 w0 (Blocked toWatch watcher) w).
  { split; [assumption|]. exists (Some watcher). split; [assumption|].
    split; [|discriminate]. now intros t wt [= _ <-]. }
  destruct o as [c|r|]; cbn [select fst snd].
  - exact Hsame'.
  - destruct (WaitForFile_turn toWatch r) as [|[e|] l]; cbn [fst snd].
    + exact Hsame'.
    + apply Hend; discriminate.
    + destruct (watcher_Close_kept n0 watcher w0 w Hge Hsame Hclosed) as [Hs Hc].
      now apply iteration_kept.
  - apply Hend; discriminate.
Qed.

Lemma run_kept (co : Coordinator) (n0 : nat) (w0 : World) (os : list occurrence) :
  forall (st : status) (w : World),
  watchers_kept n0 w0 st w ->
  watchers_kept n0 w0 (fst (run co st w os)) (snd (run co st w os)).
Proof.
  induction os as [|o os IH]; intros st w Hinv; [exact Hinv|].
  cbn [run]. destruct st as [t wt|how|err|wt err]; try exact Hinv.
  pose proof (select_kept co n0 w0 w t wt o Hinv) as Hsel.
  destruct (select co t wt w o) as [st1 w1]. now apply IH.
Qed.

(** X8: of the watchers a call of [WaitInLine] creates, at most one is
    open at any time and none when the call returns first in line; the
    watchers that existed before the call are left as they were. *)
Theorem WaitInLine_watchers (co : Coordinator) (w0 : World) (os : list occurrence) :
  let n0 := length (watchers w0) in
  let st := fst (WaitInLine co w0 os) in
  let w := snd (WaitInLine co w0 os) in
  (forall k, (k < n0)%nat -> watchers w !! k = watchers w0 !! k) /\
  (forall k1 k2, (n0 <= k1)%nat -> (n0 <= k2)%nat ->
     is_open k1 w = true -> is_open k2 w = true -> k1 = k2) /\
  (st = Returned FirstInLine ->
   forall k, (n0 <= k)%nat -> is_open k w = false).
Proof.
  intros n0 st w.
  assert (Hinv : watchers_kept n0 w0 st w).
  { subst st w. unfold WaitInLine.
    assert (H0 : watchers_kept n0 w0 (fst (iteration co w0)) (snd (iteration co w0))).
    { apply iteration_kept.
      - split; [reflexivity|auto].
      - intros k Hk _. now apply is_open_beyond. }
    destruct (iteration co w0) as [st1 w1]. cbn [fst snd] in H0.
    pose proof (run_kept co n0 w0 os st1 w1 H0) as H.
    now destruct (run co st1 w1 os). }
  destruct Hinv as ([_ Hlow] & cur & Hclosed & _ & Hfirst).
  split; [assumption|]. split.
  - intros k1 k2 H1 H2 O1 O2.
    destruct (decide (Some k1 = cur)) as [E1|N1].
    + destruct (decide (Some k2 = cur)) as [E2|N2]; [congruence|].
      rewrite (Hclosed k2 H2 N2) in O2. discriminate.
    + rewrite (Hclosed k1 H1 N1) in O1. discriminate.
  - intros Hst k Hk. apply Hclosed; [assumption|]. rewrite (Hfirst Hst). discriminate.
Qed.

(** *** A watcher that cannot be set up *)

(** X9: when the caller is not first in line and the watcher cannot be
    created, or the path cannot be added to it, the call stays in the
    send of [WaitForFile] on the unbuffered channel: no notification and
    no cancellation ends it. *)
Theorem WaitInLine_hangs_on_failed_setup (co : Coordinator) (w : World)
    (d : gmap string Node) (own : string) (j : nat) (err : error)
    (os : list occurrence) :
  mount (fs w) = Dir co -> tree (fs w) = Some d -> well_named d = true ->
  listing d !! S j = Some own -> GoPath.Join [Dir co; own] = FilePath co ->
  NewWatcher_fault w = Some err \/
    (NewWatcher_fault w = None /\ Add_fault w = Some err) ->
  exists watcher, fst (WaitInLine co w os) = Stuck watcher err.
Proof.
  intros Hm Ht Hwn Hi Hown Hfault. unfold WaitInLine.
  rewrite (iteration_listing co w d Hm Ht).
  rewrite (find_place_listing co d own (S j) Hwn Hi Hown).
  unfold WaitForFile, fsnotify_NewWatcher, watcher_Add.
  destruct Hfault as [->|[-> Ha]].
  - exists None. now rewrite run_not_blocked.
  - exists (Some (length (watchers w))). cbn [Add_fault with_watchers]. rewrite Ha.
    now rewrite run_not_blocked.
Qed.

Lemma WaitInLine_hangs_on_failed_setup_witness :
  exists watcher,
    fst (WaitInLine (Sample.contender Sample.markerC)
           {| fs := Sample.at_example Sample.queue; GOOS := "linux"; watchers := [];
              NewWatcher_fault := Some (SyscallError "inotify_init1" EMFILE);
              Add_fault := None |}
           (Sample.B_leaves ++ [Done]))
    = Stuck watcher (SyscallError "inotify_init1" EMFILE).
Proof.
  apply (WaitInLine_hangs_on_failed_setup (Sample.contender Sample.markerC)
           _ Sample.queue Sample.markerC 1).
  - reflexivity.
  - reflexivity.
  - vm_compute. reflexivity.
  - vm_compute. reflexivity.
  - vm_compute. reflexivity.
  - left. reflexivity.
Defined.

(** *** After cutting in line *)



(** *** The predecessor leaves *)

Lemma listing_delete_at (d : gmap string Node) (pred : string) (j : nat) :
  listing d !! j = Some pred ->
  listing (delete pred d) = take j (listing d) ++ drop (S j) (listing d).
Proof.
  intros Hj. apply listing_delete. symmetry. now apply take_drop_middle.
Qed.

(** X11: the waiter moves up one place when its predecessor leaves: once
    the marker just before the caller's is unlinked and the removal
    notified, the call closes its watcher and lists again; it returns
    first in line when the predecessor was first, and otherwise watches
    the entry that was before the predecessor. *)
Theorem WaitInLine_moves_up (co : Coordinator) (w0 w1 : World)
    (os : list occurrence) (d : gmap string Node) (own pred : string)
    (j watcher : nat) (event : Event) :
  WaitInLine co w0 os = (Blocked (GoPath.Join [Dir co; pred]) watcher, w1) ->
  mount (fs w1) = Dir co -> tree (fs w1) = Some d -> well_named d = true ->
  listing d !! j = Some pred -> listing d !! S j = Some own ->
  GoPath.Join [Dir co; own] = FilePath co ->
  is_removal_of (GoPath.Join [Dir co; pred]) event = true ->
  let w2 := watcher_Close watcher (with_fs (change (Removed pred) (fs w1)) w1) in
  let os' := os ++ [Outside (Removed pred); Turn (FromEvents (Value event))] in
  match j with
  | O => WaitInLine co w0 os' = (Returned FirstInLine, w2)
  | S i =>
      exists before, listing d !! i = Some before /\
        WaitInLine co w0 os' =
        match WaitForFile (GoPath.Join [Dir co; before]) w2 with
        | (Watching watcher', w') =>
            (Blocked (GoPath.Join [Dir co; before]) watcher', w')
        | (Sending watcher' err, w') => (Stuck watcher' err, w')
        end
  end.
Proof.
  intros Hb Hm Ht Hwn Hpred Hown Hj Hev w2 os'.
  assert (Hrun : WaitInLine co w0 os' = iteration co w2).
  { subst os'.
    replace (os ++ [Outside (Removed pred); Turn (FromEvents (Value event))])
      with ((os ++ [Outside (Removed pred)]) ++ [Turn (FromEvents (Value event))])
      by (rewrite <- app_assoc; reflexivity).
    apply WaitInLine_wakes with (toWatch := GoPath.Join [Dir co; pred]).
    - now rewrite (WaitInLine_snoc co w0 w1 os _ _ watcher Hb).
    - now rewrite WaitForFileFacts.WaitForFile_turn_event, Hev. }
  assert (Hm2 : mount (fs w2) = Dir co).
  { subst w2. cbn. unfold change. now rewrite Ht. }
  assert (Ht2 : tree (fs w2) = Some (delete pred d)).
  { subst w2. cbn. unfold change. now rewrite Ht. }
  pose proof (listing_delete_at d pred j Hpred) as Hl2.
  assert (Hlen : (j < length (listing d))%nat) by (eapply lookup_lt_Some; eauto).
  assert (Hown2 : listing (delete pred d) !! j = Some own).
  { rewrite Hl2, lookup_app_r by (rewrite length_take; lia).
    rewrite length_take, Nat.min_l by lia.
    rewrite lookup_drop. now replace (S j + (j - j))%nat with (S j) by lia. }
  rewrite Hrun, (iteration_listing co w2 (delete pred d) Hm2 Ht2).
  rewrite (find_place_listing co (delete pred d) own j
             (well_named_delete d pred Hwn) Hown2 Hj).
  destruct j as [|i]; [reflexivity|].
  assert (Hi : is_Some (listing d !! i)) by (apply lookup_lt_is_Some; lia).
  destruct Hi as [before Hbefore]. exists before. split; [assumption|].
  assert (Hb2 : listing (delete pred d) !! i = Some before).
  { rewrite Hl2, lookup_app_l by (rewrite length_take; lia).
    now rewrite lookup_take_lt by lia. }
  rewrite nth_lookup, Hb2. reflexivity.
Qed.

Lemma WaitInLine_moves_up_witness :
  exists before, listing Sample.queue !! 0%nat = Some before /\
    WaitInLine (Sample.contender Sample.markerC) Sample.start
      ([] ++ [Outside (Removed Sample.markerB);
              Turn (FromEvents (Value (Sample.removal Sample.markerB)))]) =
    match WaitForFile (GoPath.Join ["/tmp/example"; before])
            (watcher_Close 0
               (with_fs
                  (change (Removed Sample.markerB)
                     (fs (snd (WaitInLine (Sample.contender Sample.markerC)
                                 Sample.start []))))
                  (snd (WaitInLine (Sample.contender Sample.markerC) Sample.start []))))
    with
    | (Watching watcher', w') =>
        (Blocked (GoPath.Join ["/tmp/example"; before]) watcher', w')
    | (Sending watcher' err, w') => (Stuck watcher' err, w')
    end.
Proof.
  apply (WaitInLine_moves_up (Sample.contender Sample.markerC) Sample.start
           (snd (WaitInLine (Sample.contender Sample.markerC) Sample.start []))
           [] Sample.queue Sample.markerC Sample.markerB 1 0
           (Sample.removal Sample.markerB)).
  - vm_compute. reflexivity.
  - reflexivity.
  - reflexivity.
  - vm_compute. reflexivity.
  - vm_compute. reflexivity.
  - vm_compute. reflexivity.
  - vm_compute. reflexivity.
  - vm_compute. reflexivity.
Defined.

End WaitInLineMore.

Module WaitForFileMore.

Lemma WaitForFile_turn_sends_nil (filePath : string) (r : ready) :
  filePath <> "" ->
  WaitForFile_turn filePath r = if sends_nil filePath r then [None] else [].
Proof.
  intros Hne. destruct r as [[event|]|[err|]]; cbn [sends_nil].
  - apply WaitForFileFacts.WaitForFile_turn_event.
  - unfold WaitForFile_turn. cbn [comma_ok Name].
    assert (H : String.eqb "" filePath = false).
    { apply String.eqb_neq. congruence. }
    now rewrite H.
  - reflexivity.
  - reflexivity.
Qed.

(** X12: all the goroutine of [WaitForFile] ever sends for a path that
    is not empty is [nil]: once for each removal of the path notified on
    [Events] and once for each receive from the closed [Errors] channel.
    An error that arrives on [Errors] and the closing of [Events] are
    never reported. *)
Theorem WaitForFile_sends_only_nil (filePath : string) (rs : list ready) :
  filePath <> "" ->
  WaitForFile_sends filePath rs =
  map (fun _ => None) (List.filter (sends_nil filePath) rs).
Proof.
  intros Hne. unfold WaitForFile_sends.
  induction rs as [|r rs IH]; [reflexivity|].
  cbn [flat_map List.filter]. rewrite IH, (WaitForFile_turn_sends_nil _ _ Hne).
  destruct (sends_nil filePath r); reflexivity.
Qed.

Lemma WaitForFile_sends_only_nil_witness :
  WaitForFile_sends "/tmp/example/queuer-1700000000000000001-811"
    [FromErrors (Value (errors_New "overflow")); FromEvents Closed;
     FromEvents (Value (Sample.removal Sample.markerA)); FromErrors Closed] =
  map (fun _ => None)
    (List.filter (sends_nil "/tmp/example/queuer-1700000000000000001-811")
       [FromErrors (Value (errors_New "overflow")); FromEvents Closed;
        FromEvents (Value (Sample.removal Sample.markerA)); FromErrors Closed]).
Proof.
  apply (WaitForFile_sends_only_nil "/tmp/example/queuer-1700000000000000001-811").
  discriminate.
Defined.

(** X13: with no fault of the notification subsystem [WaitForFile]
    returns a new watcher, open, with one path added to it: on Linux the
    directory of [filePath], elsewhere [filePath] itself.  The watchers
    that existed are as they were and the directory is not touched. *)
Theorem WaitForFile_new_watcher (filePath : string) (w : World) :
  NewWatcher_fault w = None -> Add_fault w = None ->
  exists w',
    WaitForFile filePath w = (Watching (length (watchers w)), w') /\
    watchers w' =
      watchers w ++
      [{| added := [if String.eqb (GOOS w) "linux" then GoPath.Dir filePath
                    else filePath];
          closed := false |}] /\
    fs w' = fs w.
Proof.
  intros Hn Ha. unfold WaitForFile, fsnotify_NewWatcher, watcher_Add.
  rewrite Hn. cbn [Add_fault with_watchers GOOS]. rewrite Ha.
  eexists. split; [reflexivity|]. cbn [watchers fs with_watchers]. split; [|reflexivity].
  apply list_eq. intros k.
  destruct (decide (k = length (watchers w))) as [->|Hne].
  - rewrite list_lookup_alter_eq, !list_lookup_middle by reflexivity. reflexivity.
  - rewrite list_lookup_alter_ne by auto.
    destruct (Nat.lt_ge_cases k (length (watchers w))) as [Hlt|Hge].
    + now rewrite !lookup_app_l by assumption.
    + rewrite !lookup_ge_None_2; [reflexivity| |]; rewrite length_app; cbn; lia.
Qed.

Lemma WaitForFile_new_watcher_witness :
  exists w',
    WaitForFile "/tmp/example/queuer-1700000000000000001-811" Sample.start
      = (Watching (length (watchers Sample.start)), w') /\
    watchers w' =
      watchers Sample.start ++
      [{| added := [if String.eqb (GOOS Sample.start) "linux"
                    then GoPath.Dir "/tmp/example/queuer-1700000000000000001-811"
                    else "/tmp/example/queuer-1700000000000000001-811"];
          closed := false |}] /\
    fs w' = fs Sample.start.
Proof.
  apply (WaitForFile_new_watcher "/tmp/example/queuer-1700000000000000001-811"
           Sample.start); reflexivity.
Defined.

End WaitForFileMore.

Module GoPathMore.
Import GoPath GoPathFacts.

Lemma get_last (a : string) (c : ascii) :
  String.get (String.length (a +:+ String c "") - 1) (a +:+ String c "") = Some c.
Proof.
  induction a as [|x a IH]; [reflexivity|].
  rewrite append_cons. cbn [String.length].
  destruct (String.length (a +:+ String c "")) as [|m] eqn:Hlen.
  - destruct a; rewrite ?append_cons in Hlen; discriminate.
  - cbn [Nat.sub String.get] in *. now rewrite Nat.sub_0_r in *.
Qed.

Lemma split_last (e : string) :
  e <> "" -> has_slash e = false ->
  exists e' c, e = e' +:+ String c "" /\ Ascii.eqb c slash = false.
Proof.
  induction e as [|x e IH]; [contradiction|]. intros _ Hs.
  cbn [has_slash] in Hs. apply orb_false_iff in Hs as [Hx Hs].
  destruct e as [|y e].
  - exists "", x. auto.
  - destruct IH as (e' & c & He & Hc); [discriminate|assumption|].
    exists (String x e'), c. rewrite append_cons, <- He. auto.
Qed.

Lemma elements_slash_free (s : string) :
  Forall (fun e => has_slash e = false) (elements s).
Proof.
  induction s as [|c s IH]; cbn [elements]; [repeat constructor|].
  destruct (Ascii.eqb c slash) eqn:Hc; [constructor; auto|].
  destruct (elements s) as [|e es]; [repeat constructor; cbn; now rewrite Hc|].
  apply Forall_cons in IH as [He Hes]. constructor; [|assumption].
  cbn [has_slash]. now rewrite Hc, He.
Qed.

Lemma clean_step_kept (root : bool) (out : list string) (e : string) :
  Forall (fun e => e <> "" /\ has_slash e = false) out ->
  has_slash e = false ->
  Forall (fun e => e <> "" /\ has_slash e = false) (clean_step root out e).
Proof.
  intros Hout He. unfold clean_step.
  destruct (String.eqb_spec e "") as [|Hne]; [assumption|].
  destruct (String.eqb e "."); [assumption|].
  destruct (String.eqb e "..").
  - destruct out as [|top out'].
    + destruct root; repeat constructor; auto.
    + destruct (String.eqb top "..").
      * constructor; auto.
      * now apply Forall_cons in Hout as [_ ?].
  - constructor; auto.
Qed.

Lemma clean_fold_kept (root : bool) (es out : list string) :
  Forall (fun e => has_slash e = false) es ->
  Forall (fun e => e <> "" /\ has_slash e = false) out ->
  Forall (fun e => e <> "" /\ has_slash e = false) (fold_left (clean_step root) es out).
Proof.
  revert out. induction es as [|e es IH]; intros out Hes Hout; [assumption|].
  apply Forall_cons in Hes as [He Hes]. cbn [fold_left].
  apply IH; [assumption|]. now apply clean_step_kept.
Qed.

(** For a directory path that is clean already, joining it with an
    entry name is writing the name after it, with a slash in between
    unless the path ends in one. *)
Lemma Join_clean_dir (dir n : string) :
  Clean dir = dir -> dir <> "." -> entry_name n = true ->
  Join [dir; n] = joinPath dir n.
Proof.
  intros Hclean Hdot Hn.
  assert (Hd : dir <> "") by (intros ->; now cbv in Hclean).
  pose proof (entry_name_spec n Hn) as (Hne & _ & _ & Hs).
  rewrite (Join_pair dir n Hne). apply String.eqb_neq in Hd as Hd'. rewrite Hd'.
  rewrite (Clean_entry dir n Hd Hn).
  unfold Clean in Hclean. rewrite Hd' in Hclean.
  set (out := fold_left (clean_step (rooted dir)) (elements dir) []) in *.
  assert (Hout : Forall (fun e => e <> "" /\ has_slash e = false) out).
  { apply clean_fold_kept; [apply elements_slash_free|constructor]. }
  cbv zeta in Hclean.
  destruct (String.eqb_spec (render (rooted dir) out) "") as [_|_];
    [now symmetry in Hclean|].
  unfold render in *. destruct out as [|e out'].
  - cbn [rev String.concat app] in *. rewrite append_nil_r in Hclean.
    destruct (rooted dir); [|now symmetry in Hclean]. rewrite <- Hclean. reflexivity.
  - apply Forall_cons in Hout as [[He Hse] _].
    destruct (split_last e He Hse) as (e' & c & -> & Hc).
    cbn [rev] in *. rewrite concat_snoc.
    assert (Hrev : exists P, dir = P +:+ String c "").
    { rewrite <- Hclean. rewrite concat_snoc.
      rewrite <- !append_assoc. eauto. }
    destruct Hrev as [P HP].
    assert (Hjoin : joinPath dir n = dir +:+ "/" +:+ n).
    { unfold joinPath. rewrite HP at 1 2. rewrite get_last, Hc. reflexivity. }
    rewrite Hjoin. rewrite <- Hclean at 2.
    destruct (rev out' ++ [e' +:+ String c ""]) eqn:Hl.
    + now apply app_nil in Hl as [_ ?].
    + now rewrite !append_assoc.
Qed.

End GoPathMore.

Module CreateWaitFileMore.
Import StrOrd StrOrdFacts GoPathFacts GoPathMore DirFacts DirMoreFacts.
Import Strconv StrconvFacts CreateWaitFileFacts WaitInLineFacts.

(** *** The name of a marker *)

Lemma has_slash_itoa (z : Z) : GoPath.has_slash (itoa z) = false.
Proof.
  unfold itoa. destruct (z <? 0)%Z; rewrite ?has_slash_app, has_slash_utoa; reflexivity.
Qed.

Lemma wait_file_name_entry (now : Z) (random : N) :
  GoPath.entry_name (wait_file_name now random) = true.
Proof.
  unfold GoPath.entry_name. rewrite wait_file_name_eq.
  rewrite !has_slash_app, has_slash_itoa, has_slash_utoa.
  rewrite !append_cons, append_nil_l. reflexivity.
Qed.

Lemma digit_not_dash (d : N) : (d < 10)%N -> Ascii.eqb (digit d) "-" = false.
Proof.
  intros Hd.
  assert (H : (d = 0 \/ d = 1 \/ d = 2 \/ d = 3 \/ d = 4 \/ d = 5 \/ d = 6 \/
               d = 7 \/ d = 8 \/ d = 9)%N) by lia.
  repeat (destruct H as [->|H]; [reflexivity|]). now subst.
Qed.

Lemma has_dash_fixed_width (k : nat) (n : N) (acc : string) :
  has_dash (fixed_width k n acc) = has_dash acc.
Proof.
  revert n acc. induction k as [|k IH]; intros n acc; [reflexivity|].
  cbn [fixed_width]. rewrite IH. cbn [has_dash].
  rewrite digit_not_dash; [reflexivity|]. apply N.mod_upper_bound. lia.
Qed.

Lemma utoa_digits (n : N) : has_dash (utoa n) = false /\ utoa n <> "".
Proof.
  destruct (utoa_fixed n) as (k & Hk & Hlow & ->). split.
  - now rewrite has_dash_fixed_width.
  - intros H. apply (f_equal String.length) in H.
    rewrite fixed_width_length in H. cbn [String.length] in H.
    assert (k = 0%nat) by lia. subst k.
    destruct Hlow as [|Hlow]; [discriminate|]. cbn in Hk, Hlow. lia.
Qed.

Lemma utoa_inj (a b : N) : utoa a = utoa b -> a = b.
Proof.
  intros H.
  destruct (N.lt_trichotomy a b) as [Hlt|[Heq|Hgt]]; [|assumption|]; exfalso.
  - pose proof (utoa_compare a b "" "" Hlt (f_equal String.length H)) as Hc.
    rewrite H, compare_refl in Hc. discriminate.
  - pose proof (utoa_compare b a "" "" Hgt (f_equal String.length (eq_sym H))) as Hc.
    rewrite H, compare_refl in Hc. discriminate.
Qed.

Lemma split_at_dash (u1 u2 x y : string) :
  has_dash u1 = false -> has_dash u2 = false ->
  u1 +:+ String "-" x = u2 +:+ String "-" y -> u1 = u2 /\ x = y.
Proof.
  revert u2. induction u1 as [|c u1 IH]; intros [|c2 u2] H1 H2 Heq;
    rewrite ?append_cons, ?append_nil_l in Heq.
  - now injection Heq as ->.
  - injection Heq as <- _. cbn in H2. discriminate.
  - injection Heq as -> _. cbn in H1. discriminate.
  - injection Heq as <- Heq. cbn [has_dash] in H1, H2.
    apply orb_false_iff in H1 as [_ H1]. apply orb_false_iff in H2 as [_ H2].
    destruct (IH u2 H1 H2 Heq) as [-> ->]. auto.
Qed.

Lemma itoa_split (t1 t2 : Z) (x y : string) :
  itoa t1 +:+ String "-" x = itoa t2 +:+ String "-" y -> t1 = t2 /\ x = y.
Proof.
  unfold itoa.
  destruct (Z.ltb_spec t1 0) as [N1|P1]; destruct (Z.ltb_spec t2 0) as [N2|P2];
    rewrite ?append_cons, ?append_nil_l; intros Heq.
  - injection Heq as Heq.
    destruct (utoa_digits (Z.to_N (- t1))) as [D1 _].
    destruct (utoa_digits (Z.to_N (- t2))) as [D2 _].
    destruct (split_at_dash _ _ _ _ D1 D2 Heq) as [Hu ->].
    apply utoa_inj in Hu. split; [|reflexivity].
    apply Z2N.inj in Hu; lia.
  - exfalso. destruct (utoa_digits (Z.to_N t2)) as [D2 E2].
    destruct (utoa (Z.to_N t2)) as [|c u]; [contradiction|].
    rewrite append_cons in Heq. injection Heq as <- _. cbn in D2. discriminate.
  - exfalso. destruct (utoa_digits (Z.to_N t1)) as [D1 E1].
    destruct (utoa (Z.to_N t1)) as [|c u]; [contradiction|].
    rewrite append_cons in Heq. injection Heq as -> _. cbn in D1. discriminate.
  - destruct (utoa_digits (Z.to_N t1)) as [D1 _].
    destruct (utoa_digits (Z.to_N t2)) as [D2 _].
    destruct (split_at_dash _ _ _ _ D1 D2 Heq) as [Hu ->].
    apply utoa_inj in Hu. split; [|reflexivity].
    apply Z2N.inj in Hu; lia.
Qed.

(** X14: the name of a marker tells its creation time and its random
    draw: two markers with the same name were created at the same
    nanosecond with the same draw. *)
Theorem wait_file_name_inj (t1 t2 : Z) (r1 r2 : N) :
  wait_file_name t1 r1 = wait_file_name t2 r2 -> t1 = t2 /\ r1 = r2.
Proof.
  rewrite !wait_file_name_eq. intros Heq.
  apply (String.app_inj "queuer-") in Heq.
  change ("-" +:+ utoa r1) with (String "-" (utoa r1)) in Heq.
  change ("-" +:+ utoa r2) with (String "-" (utoa r2)) in Heq.
  apply itoa_split in Heq as [-> Hr]. split; [reflexivity|].
  now apply utoa_inj.
Qed.

Lemma wait_file_name_inj_witness :
  (1700000000000000001 = 1700000000000000001)%Z /\ (811 = 811)%N.
Proof.
  apply (wait_file_name_inj 1700000000000000001 1700000000000000001 811 811).
  reflexivity.
Defined.

(** *** What [CreateWaitFile] does to the directory *)

Lemma try_names_first_free (dir pattern : string) (d d' : gmap string Node)
    (draws : list N) (file : string) :
  try_names dir pattern d draws = Ok (file, d') ->
  exists skipped r rest,
    draws = skipped ++ r :: rest /\
    (forall s, s ∈ skipped -> is_Some (d !! temp_name pattern s)) /\
    d !! temp_name pattern r = None /\
    file = joinPath dir (temp_name pattern r) /\
    d' = <[temp_name pattern r := {| content := ""; pinned := None |}]> d.
Proof.
  induction draws as [|r draws IH]; cbn [try_names].
  { destruct (prefixAndSuffix pattern). discriminate. }
  destruct (d !! temp_name pattern r) eqn:Hr.
  - intros H. destruct (IH H) as (skipped & r' & rest & -> & Hsk & Hrest).
    exists (r :: skipped), r', rest. split; [reflexivity|]. split; [|assumption].
    intros s [->|Hs]%elem_of_cons; eauto.
  - intros [= <- <-]. exists [], r, draws. split; [reflexivity|].
    split; [|auto]. intros s Hs. inversion Hs.
Qed.

(** The steps of a successful [CreateWaitFile]. *)
Lemma CreateWaitFile_steps (co co' : Coordinator) (now : Z) (draws : list N)
    (f f' : FS) (file : string) :
  CreateWaitFile co now draws f = (Ok file, co', f') ->
  exists d skipped r rest,
    mount f = Dir co /\
    (tree f = Some d \/ (tree f = None /\ d = ∅)) /\
    draws = skipped ++ r :: rest /\
    (forall s, s ∈ skipped -> is_Some (d !! wait_file_name now s)) /\
    d !! wait_file_name now r = None /\
    f' = {| mount := Dir co;
            tree := Some (<[wait_file_name now r :=
                              {| content := ""; pinned := None |}]> d) |} /\
    file = joinPath (Dir co) (wait_file_name now r) /\
    co' = {| Dir := Dir co; FilePath := file |}.
Proof.
  unfold CreateWaitFile, os_MkdirAll.
  destruct (String.eqb_spec (Dir co) (mount f)) as [Hm|Hm]; [|discriminate].
  set (f1 := match tree f with
             | Some _ => f
             | None => {| mount := mount f; tree := Some ∅ |}
             end).
  assert (Hf1 : exists d, tree f1 = Some d /\ mount f1 = mount f /\
                          (tree f = Some d \/ (tree f = None /\ d = ∅))).
  { subst f1. destruct (tree f) as [d|] eqn:Ht; [exists d|exists ∅]; auto. }
  destruct Hf1 as (d & Ht1 & Hm1 & Hd).
  replace (match tree f with
           | Some _ => (f, None)
           | None => ({| mount := mount f; tree := Some ∅ |}, None)
           end) with (f1, @None error) by (subst f1; now destruct (tree f)).
  unfold ioutil_TempFile. rewrite has_slash_namePattern.
  destruct (String.eqb_spec (Dir co) "") as [He|He].
  { destruct (String.eqb_spec os_TempDir (mount f1)) as [Ht|Ht]; [|discriminate].
    rewrite Hm1, <- Hm, He in Ht. discriminate. }
  destruct (String.eqb (Dir co) (mount f1)); [|discriminate].
  rewrite Ht1.
  destruct (try_names _ _ d draws) as [[file' d']|e] eqn:Htry; [|discriminate].
  intros [= <- <- <-].
  apply try_names_first_free in Htry
    as (skipped & r & rest & Hdraws & Hsk & Hnone & -> & ->).
  exists d, skipped, r, rest. rewrite Hm1, <- Hm. auto 10.
Qed.

(** X15: a [CreateWaitFile] that succeeds adds one entry to the
    directory and changes no other: an empty file named after the time
    and the first draw whose name is not taken.  It creates the
    directory when that did not exist, and records the path of the file
    in [FilePath]. *)
Theorem CreateWaitFile_adds_one_marker (co co' : Coordinator) (now : Z)
    (draws : list N) (f f' : FS) (file : string) :
  CreateWaitFile co now draws f = (Ok file, co', f') ->
  exists skipped r rest,
    draws = skipped ++ r :: rest /\
    (forall s, s ∈ skipped -> is_Some (entry_of f (wait_file_name now s))) /\
    entry_of f (wait_file_name now r) = None /\
    entry_of f' (wait_file_name now r) = Some {| content := ""; pinned := None |} /\
    (forall n, n <> wait_file_name now r -> entry_of f' n = entry_of f n) /\
    is_Some (tree f') /\ mount f' = mount f /\
    file = joinPath (Dir co) (wait_file_name now r) /\
    co' = {| Dir := Dir co; FilePath := file |}.
Proof.
  intros H. apply CreateWaitFile_steps in H
    as (d & skipped & r & rest & Hm & Hd & Hdraws & Hsk & Hnone & -> & -> & ->).
  assert (He : forall n, entry_of f n = d !! n).
  { intros n. unfold entry_of. destruct Hd as [->|[-> ->]]; [reflexivity|].
    now rewrite lookup_empty. }
  exists skipped, r, rest. unfold entry_of at 3 4. cbn [tree mount].
  split; [assumption|]. split; [intros s Hs; rewrite He; auto|].
  split; [now rewrite He|]. split; [apply lookup_insert_eq|].
  split; [intros n Hn; now rewrite He, lookup_insert_ne by auto|].
  split; [eauto|]. auto.
Qed.

Lemma CreateWaitFile_adds_one_marker_witness :
  exists skipped r rest,
    [811; 97; 12]%N = skipped ++ r :: rest /\
    (forall s, s ∈ skipped ->
       is_Some (entry_of (Sample.at_example Sample.queue)
                  (wait_file_name 1700000000000000001 s))) /\
    entry_of (Sample.at_example Sample.queue)
      (wait_file_name 1700000000000000001 r) = None /\
    entry_of
      (Sample.at_example
         (<["queuer-1700000000000000001-97" := Sample.plain]> Sample.queue))
      (wait_file_name 1700000000000000001 r) = Some {| content := ""; pinned := None |} /\
    (forall n, n <> wait_file_name 1700000000000000001 r ->
       entry_of
         (Sample.at_example
            (<["queuer-1700000000000000001-97" := Sample.plain]> Sample.queue)) n
       = entry_of (Sample.at_example Sample.queue) n) /\
    is_Some (tree (Sample.at_example
                     (<["queuer-1700000000000000001-97" := Sample.plain]> Sample.queue))) /\
    mount (Sample.at_example
             (<["queuer-1700000000000000001-97" := Sample.plain]> Sample.queue))
    = mount (Sample.at_example Sample.queue) /\
    "/tmp/example/queuer-1700000000000000001-97"
    = joinPath "/tmp/example" (wait_file_name 1700000000000000001 r) /\
    Sample.contender "queuer-1700000000000000001-97"
    = {| Dir := "/tmp/example";
         FilePath := "/tmp/example/queuer-1700000000000000001-97" |}.
Proof.
  apply (CreateWaitFile_adds_one_marker
           {| Dir := "/tmp/example"; FilePath := "" |} _ 1700000000000000001
           [811; 97; 12]%N (Sample.at_example Sample.queue)).
  vm_compute. reflexivity.
Defined.

(** X16: a [CreateWaitFile] that fails has recorded nothing and created
    no file: [FilePath] is what it was and the directory has the entries
    it had (the directory itself may have been created). *)
Theorem CreateWaitFile_failure (co co' : Coordinator) (now : Z)
    (draws : list N) (f f' : FS) (err : error) :
  CreateWaitFile co now draws f = (Err err, co', f') ->
  co' = co /\ mount f' = mount f /\ forall n, entry_of f' n = entry_of f n.
Proof.
  unfold CreateWaitFile, os_MkdirAll.
  destruct (String.eqb (Dir co) (mount f)).
  - set (f1 := match tree f with
               | Some _ => f
               | None => {| mount := mount f; tree := Some ∅ |}
               end).
    assert (Hf1 : mount f1 = mount f /\ forall n, entry_of f1 n = entry_of f n).
    { subst f1. unfold entry_of. destruct (tree f) eqn:Ht; cbn [tree mount].
      - now rewrite Ht.
      - split; [reflexivity|]. intros n. apply lookup_empty. }
    replace (match tree f with
             | Some _ => (f, None)
             | None => ({| mount := mount f; tree := Some ∅ |}, None)
             end) with (f1, @None error) by (subst f1; now destruct (tree f)).
    unfold ioutil_TempFile.
    destruct (GoPath.has_slash (namePattern now)); [now intros [= _ <- <-]|].
    destruct (String.eqb _ (mount f1)); [|now intros [= _ <- <-]].
    destruct (tree f1) as [d1|]; [|now intros [= _ <- <-]].
    destruct (try_names _ _ d1 draws) as [[file d']|e]; [discriminate|].
    now intros [= _ <- <-].
  - now intros [= _ <- <-].
Qed.

Lemma CreateWaitFile_failure_witness :
  {| Dir := "/tmp/example"; FilePath := "" |}
    = {| Dir := "/tmp/example"; FilePath := "" |} /\
  mount (Sample.at_example Sample.queue) = mount (Sample.at_example Sample.queue) /\
  forall n, entry_of (Sample.at_example Sample.queue) n
            = entry_of (Sample.at_example Sample.queue) n.
Proof.
  apply (CreateWaitFile_failure {| Dir := "/tmp/example"; FilePath := "" |} _
           1700000000000000001 [811]%N (Sample.at_example Sample.queue) _
           (PathError "createtemp" "/tmp/example/queuer-1700000000000000001-*" EEXIST)).
  vm_compute. reflexivity.
Defined.

(** *** The marker is found again *)

(** X17: for a directory path that is clean (and is not [.]) the path
    [CreateWaitFile] records is the one [WaitInLine] and [CutInLine]
    compare the entries with: after a call that succeeds the new entry
    is the caller's own marker, and every entry is named as a directory
    entry when that was so before. *)
Theorem CreateWaitFile_marker_is_own (co co' : Coordinator) (now : Z)
    (draws : list N) (f f' : FS) (file : string) :
  GoPath.Clean (Dir co) = Dir co -> Dir co <> "." ->
  (forall d, tree f = Some d -> well_named d = true) ->
  CreateWaitFile co now draws f = (Ok file, co', f') ->
  exists d' r,
    mount f' = Dir co' /\ tree f' = Some d' /\ well_named d' = true /\
    In r draws /\ own_marker co' d' (wait_file_name now r).
Proof.
  intros Hclean Hdot Hwn H. apply CreateWaitFile_steps in H
    as (d & skipped & r & rest & Hm & Hd & Hdraws & Hsk & Hnone & -> & -> & ->).
  eexists _, r. cbn [mount tree Dir FilePath].
  split; [reflexivity|]. split; [reflexivity|]. split; [|split].
  - apply well_named_spec. intros n [v Hn].
    destruct (decide (n = wait_file_name now r)) as [->|Hne].
    + apply wait_file_name_entry.
    + rewrite lookup_insert_ne in Hn by auto.
      destruct Hd as [Hd|[_ ->]]; [|now rewrite lookup_empty in Hn].
      specialize (Hwn d Hd). rewrite well_named_spec in Hwn. eauto.
  - rewrite Hdraws. apply in_or_app. right. now left.
  - split; cbn [Dir FilePath].
    + rewrite lookup_insert_eq. eauto.
    + apply Join_clean_dir; auto. apply wait_file_name_entry.
Qed.

Lemma CreateWaitFile_marker_is_own_witness :
  exists d' r,
    mount (Sample.at_example
             (<["queuer-1700000000000000004-12" := Sample.plain]> Sample.queue))
    = Dir (Sample.contender "queuer-1700000000000000004-12") /\
    tree (Sample.at_example
            (<["queuer-1700000000000000004-12" := Sample.plain]> Sample.queue))
    = Some d' /\
    well_named d' = true /\ In r [12]%N /\
    own_marker (Sample.contender "queuer-1700000000000000004-12") d'
      (wait_file_name 1700000000000000004 r).
Proof.
  apply (CreateWaitFile_marker_is_own
           {| Dir := "/tmp/example"; FilePath := "" |} _ 1700000000000000004
           [12]%N (Sample.at_example Sample.queue) _
           "/tmp/example/queuer-1700000000000000004-12").
  - vm_compute. reflexivity.
  - discriminate.
  - intros d [= <-]. vm_compute. reflexivity.
  - vm_compute. reflexivity.
Defined.

(** X18: the first contender holds the lock at once: after a
    [CreateWaitFile] that succeeds in a directory that was empty or did
    not exist, [WaitInLine] returns first in line whatever happens, and
    creates no watcher. *)
Theorem WaitInLine_alone_in_line (co co' : Coordinator) (now : Z)
    (draws : list N) (f : FS) (w : World) (file : string)
    (os : list occurrence) :
  GoPath.Clean (Dir co) = Dir co -> Dir co <> "." ->
  tree f = None \/ tree f = Some ∅ ->
  CreateWaitFile co now draws f = (Ok file, co', fs w) ->
  WaitInLine co' w os = (Returned FirstInLine, w).
Proof.
  intros Hclean Hdot Hempty H. apply CreateWaitFile_steps in H
    as (d & skipped & r & rest & Hm & Hd & Hdraws & Hsk & Hnone & Hfs & -> & ->).
  assert (d = ∅) as ->.
  { destruct Hd as [Hd|[_ ->]]; [|reflexivity].
    destruct Hempty as [He|He]; congruence. }
  unfold WaitInLine.
  rewrite (iteration_listing _ w
             (<[wait_file_name now r := {| content := ""; pinned := None |}]> ∅))
    by (now rewrite Hfs).
  rewrite insert_empty, listing_singleton. cbn [find_place Dir FilePath].
  assert (Hj : GoPath.Join [Dir co; wait_file_name now r]
               = joinPath (Dir co) (wait_file_name now r)).
  { apply Join_clean_dir; auto. apply wait_file_name_entry. }
  apply String.eqb_eq in Hj. rewrite Hj. cbn [negb Nat.eqb].
  now rewrite run_not_blocked.
Qed.

Lemma WaitInLine_alone_in_line_witness :
  WaitInLine (Sample.contender "queuer-1700000000000000004-12")
    (Sample.world
       (Sample.at_example {[ "queuer-1700000000000000004-12" := Sample.plain ]}))
    [Done]
  = (Returned FirstInLine,
     Sample.world
       (Sample.at_example {[ "queuer-1700000000000000004-12" := Sample.plain ]})).
Proof.
  apply (WaitInLine_alone_in_line
           {| Dir := "/tmp/example"; FilePath := "" |} _ 1700000000000000004
           [12]%N {| mount := "/tmp/example"; tree := None |} _
           "/tmp/example/queuer-1700000000000000004-12").
  - vm_compute. reflexivity.
  - discriminate.
  - left. reflexivity.
  - vm_compute. reflexivity.
Defined.

(** *** Joining the line *)




End CreateWaitFileMore.
